(** * generate-audio: the streaming speech-synthesis request handler

    A shallow embedding of [src/api/generate-audio.js].  The file holds three
    revisions of the module; the one modelled here is the revision at lines
    154-292 (API key in the connection headers, audio field named [audio],
    [flush: true] on the text message).

    Conventions of the embedding:
    - a JavaScript value that came out of [JSON.parse] is a [json]; a value
      that may be [undefined] is an [option json];
    - a frame on the WebSocket is represented by the value it encodes: an
      outbound frame [JSON.stringify(v)] by [v], an inbound frame by the
      outcome of [JSON.parse] on it ([message]);
    - the four socket listeners are state transformers on one [state] record
      that holds the two closed-over arrays, the promise, the log of calls to
      collaborators, the bucket contents and the HTTP response;
    - [await] on the session promise is the continuation [handler_resume],
      run as soon as a listener settles the promise;
    - what the outside world decides (collaborator outcomes, the clock, the
      events on the socket, the environment variables) is a [World]. *)

From Stdlib Require Import Floats.PrimFloat Strings.Ascii Strings.Byte.
From stdpp Require Import gmap strings list pretty.


(** ** JavaScript values and errors *)

#[warnings="-register-all"]
Inductive json : Type :=
  | JNull
  | JBool (b : bool)
  | JNumber (x : float)
  | JString (s : string)
  | JArray (items : list json)
  | JObject (fields : gmap string json).

Record js_error : Type := JsError { error_name : string; error_message : string }.

Definition Error (msg : string) : js_error := JsError "Error" msg.
Definition TypeError (msg : string) : js_error := JsError "TypeError" msg.

(** The result of evaluating an expression or a listener body. *)
Inductive completion (A : Type) : Type :=
  | Normal (a : A)
  | Throw (e : js_error).
Arguments Normal {A} a.
Arguments Throw {A} e.

#[global] Instance completion_ret : MRet completion := fun A a => Normal a.

#[global] Instance completion_bind : MBind completion := fun A B k c =>
  match c with
  | Normal a => k a
  | Throw e => Throw e
  end.

(** [if (v)]: [undefined], [null], [false], [0], [NaN] and [""] are falsy. *)
Definition truthy (v : option json) : bool :=
  match v with
  | None => false
  | Some JNull => false
  | Some (JBool b) => b
  | Some (JNumber x) => negb (PrimFloat.eqb x 0 || PrimFloat.is_nan x)
  | Some (JString s) => match s with "" => false | _ => true end
  | Some (JArray _) => true
  | Some (JObject _) => true
  end.

Arguments truthy : simpl never.

(** [data.key] for one of the keys the module reads ([audio], [alignment],
    [recordId]); none of them is defined by a primitive wrapper, by an array
    or by [Object.prototype], so only an object's own fields can answer.
    Reading a property of [null] throws. *)
Definition get_prop (data : json) (key : string) : completion (option json) :=
  match data with
  | JNull =>
      Throw (TypeError ("Cannot read properties of null (reading '" +:+ key +:+ "')"))
  | JObject fields => Normal (fields !! key)
  | _ => Normal None
  end.

(** ** Library functions of the platform

    [Buffer.from(s, 'base64')] on a string never throws; its exact result on
    text that is not canonical base64 depends on the Node release.  On an
    array or an object [Buffer.from] either builds a buffer or throws.  The
    error it throws ends in [Received ...], a rendering of the value it was
    given.  [Number.prototype.toString] is the shortest round-trip rendering
    of a double.  The development is parametric in the four. *)
Class Platform : Type := {
  base64_decode : string -> list byte;
  Buffer_from_object : json -> option (list byte);
  received : json -> string;
  Number_toString : float -> string;
}.

Section Program.
Context `{Platform}.

Definition ERR_INVALID_ARG_TYPE (v : json) : js_error :=
  TypeError ("The first argument must be of type string or an instance of Buffer, ArrayBuffer, or Array or an Array-like Object."
             +:+ received v).

(** [Buffer.from(v, 'base64')]. *)
Definition Buffer_from (v : json) : completion (list byte) :=
  match v with
  | JString s => Normal (base64_decode s)
  | JArray _ | JObject _ =>
      match Buffer_from_object v with
      | Some b => Normal b
      | None => Throw (ERR_INVALID_ARG_TYPE v)
      end
  | JNull | JBool _ | JNumber _ => Throw (ERR_INVALID_ARG_TYPE v)
  end.

(** The string conversion a template literal applies to [${v}].  A value
    that came out of [JSON.parse] has no callable member of its own: an
    object is converted by [Object.prototype.toString] unless a field of its
    own named [toString] hides that method, in which case no method gives a
    primitive and the conversion throws; an array is converted by
    [Array.prototype.join], which converts its elements in turn. *)
Fixpoint ToString (v : json) : completion string :=
  match v with
  | JNull => Normal "null"%string
  | JBool true => Normal "true"%string
  | JBool false => Normal "false"%string
  | JNumber x => Normal (Number_toString x)
  | JString s => Normal s
  | JArray items =>
      match (fix join (l : list json) : completion (list string) :=
               match l with
               | [] => Normal []
               | i :: rest =>
                   match (match i with JNull => Normal ""%string | _ => ToString i end) with
                   | Throw e => Throw e
                   | Normal s =>
                       match join rest with
                       | Throw e => Throw e
                       | Normal ss => Normal (s :: ss)
                       end
                   end
               end) items with
      | Throw e => Throw e
      | Normal ss => Normal (String.concat "," ss)
      end
  | JObject fields =>
      match fields !! "toString" with
      | Some _ => Throw (TypeError "Cannot convert object to primitive value")
      | None => Normal "[object Object]"%string
      end
  end.

(** The text of [${v}] where [v] has been converted before: the conversion
    of a value that came out of [JSON.parse] runs no code of the value's, so
    it gives the same text each time. *)
Definition converted (v : json) : string :=
  match ToString v with
  | Normal s => s
  | Throw _ => ""
  end.

(** [${process.env.NAME}] *)
Definition template_env (v : option string) : string :=
  match v with
  | Some s => s
  | None => "undefined"
  end.

(** ** Collaborators *)

Record put_object : Type := PutObjectCommand {
  Bucket : option string;
  Key : string;
  Body : list byte;
  ContentType : string;
}.

(** The fields written by [airtable.update]; [Timestamps_JSON] stands for
    [JSON.stringify(timestamps, null, 2)]. *)
Record update_fields : Type := UpdateFields {
  Audio_URL : string;
  Timestamps_JSON : list json;
}.

Inductive call : Type :=
  | AirtableFind (recordId : json)
  | WebSocketOpen (url : string) (xi_api_key : option string)
  | WebSocketSend (payload : json)
  | S3Send (cmd : put_object)
  | AirtableUpdate (recordId : json) (fields : update_fields).

(** An inbound frame, seen through [JSON.parse]. *)
Inductive message : Type :=
  | Malformed (syntax_error : js_error)
  | Parsed (data : json).

Inductive ws_event : Type :=
  | EvOpen
  | EvMessage (m : message)
  | EvError (e : js_error)
  | EvClose.

Record World : Type := {
  env : gmap string string;
  airtable_find : json -> completion (gmap string json);
  ws_events : list ws_event;
  Date_now : Z;
  s3_send : put_object -> completion unit;
  airtable_update : json -> update_fields -> completion unit;
}.

(** ** The state of one request *)

Inductive settlement : Type :=
  | Pending
  | Fulfilled (audioUrl : string) (timestamps : list json)
  | Rejected (e : js_error).

Record response : Type := Response { status : Z; body : json }.

Record state : Type := State {
  audioChunks : list (list byte);
  timestamps : list json;
  promise : settlement;
  calls : list call;
  s3_objects : gmap string (list byte * string);
  sent : option response;
  uncaught : option js_error;
}.

Definition initial : state := State [] [] Pending [] ∅ None None.

Definition push_audio (b : list byte) (st : state) : state :=
  State (audioChunks st ++ [b]) (timestamps st) (promise st) (calls st)
        (s3_objects st) (sent st) (uncaught st).

Definition push_timestamp (a : json) (st : state) : state :=
  State (audioChunks st) (timestamps st ++ [a]) (promise st) (calls st)
        (s3_objects st) (sent st) (uncaught st).

Definition log (c : call) (st : state) : state :=
  State (audioChunks st) (timestamps st) (promise st) (calls st ++ [c])
        (s3_objects st) (sent st) (uncaught st).

Definition store (k : string) (o : list byte * string) (st : state) : state :=
  State (audioChunks st) (timestamps st) (promise st) (calls st)
        (<[k := o]> (s3_objects st)) (sent st) (uncaught st).

Definition respond (r : response) (st : state) : state :=
  State (audioChunks st) (timestamps st) (promise st) (calls st)
        (s3_objects st) (Some r) (uncaught st).

Definition escape (e : js_error) (st : state) : state :=
  State (audioChunks st) (timestamps st) (promise st) (calls st)
        (s3_objects st) (sent st) (Some e).

(** A promise settles once: [resolve] and [reject] on a settled promise do
    nothing. *)
Definition settle (s : settlement) (st : state) : state :=
  match promise st with
  | Pending =>
      State (audioChunks st) (timestamps st) s (calls st)
            (s3_objects st) (sent st) (uncaught st)
  | _ => st
  end.

Definition resolve (audioUrl : string) (st : state) : state :=
  settle (Fulfilled audioUrl (timestamps st)) st.

Definition reject (e : js_error) (st : state) : state :=
  settle (Rejected e) st.

(** ** generateAudioWithTimestamps: the four listeners *)

Definition socketUrl (w : World) : string :=
  "wss://api.elevenlabs.io/v1/text-to-speech/" +:+ template_env (env w !! "VOICE_ID")
  +:+ "/stream-input?model_id=eleven_multilingual_v2&output_format=mp3_44100_128".

Definition bosMessage : json :=
  JObject {[ "text" := JString " ";
             "voice_settings" :=
               JObject {[ "stability" := JNumber 0.5; "similarity_boost" := JNumber 0.75 ]} ]}.

Definition textMessage (text : json) : json :=
  JObject {[ "text" := text; "flush" := JBool true ]}.

Definition eosMessage : json := JObject {[ "text" := JString "" ]}.

(** [elevenlabsSocket.on('open', ...)] *)
Definition on_open (text : json) (st : state) : state :=
  log (WebSocketSend eosMessage)
    (log (WebSocketSend (textMessage text))
       (log (WebSocketSend bosMessage) st)).

(** [elevenlabsSocket.on('message', ...)] *)
Definition on_message (m : message) (st : state) : completion state :=
  data ← match m with
         | Malformed e => Throw e
         | Parsed d => Normal d
         end;
  audio ← get_prop data "audio";
  st1 ← (if truthy audio
         then match audio with
              | Some a => b ← Buffer_from a; Normal (push_audio b st)
              | None => Normal st
              end
         else Normal st);
  alignment ← get_prop data "alignment";
  if truthy alignment
  then match alignment with
       | Some a => Normal (push_timestamp a st1)
       | None => Normal st1
       end
  else Normal st1.

(** [elevenlabsSocket.on('error', ...)] *)
Definition on_error (e : js_error) (st : state) : state := reject e st.

Definition EmptyAudioError : js_error := Error "No audio data received from ElevenLabs.".

(** [`audio/${recordId}-${Date.now()}.mp3`].  [handler] has converted
    [recordId] once, before its [try] block, when the close listener converts
    it again. *)
Definition fileName (recordId : json) (now : Z) : string :=
  "audio/" +:+ converted recordId +:+ "-" +:+ pretty now +:+ ".mp3".

Definition audioUrl_of (w : World) (file : string) : string :=
  "https://" +:+ template_env (env w !! "AWS_S3_BUCKET_NAME") +:+ ".s3."
  +:+ template_env (env w !! "AWS_S3_REGION") +:+ ".amazonaws.com/" +:+ file.

(** [elevenlabsSocket.on('close', ...)]; the upload is awaited inside the
    listener and is taken here in one step. *)
Definition on_close (w : World) (recordId : json) (st : state) : state :=
  if (length (audioChunks st) =? 0)%nat
  then reject EmptyAudioError st
  else
    let audioBuffer := concat (audioChunks st) in
    let file := fileName recordId (Date_now w) in
    let s3Command :=
      PutObjectCommand (env w !! "AWS_S3_BUCKET_NAME") file audioBuffer "audio/mpeg" in
    let st1 := log (S3Send s3Command) st in
    match s3_send w s3Command with
    | Normal _ =>
        resolve (audioUrl_of w file) (store file (audioBuffer, "audio/mpeg") st1)
    | Throw error => reject error st1
    end.

(** ** handler *)

(** The body of the [catch] block's response. *)
Definition internal_error (error : js_error) : response :=
  Response 500
    (JObject {[ "message" := JString "An internal error occurred.";
                "error" := JString (error_message error) ]}).

Definition respond_500 (error : js_error) (st : state) : state :=
  respond (internal_error error) st.

(** The rest of [handler] after [await generateAudioWithTimestamps(...)]. *)
Definition handler_resume (w : World) (recordId : json) (st : state) : state :=
  match promise st with
  | Pending => st
  | Rejected error => respond_500 error st
  | Fulfilled audioUrl timestamps =>
      let fields := UpdateFields audioUrl timestamps in
      let st1 := log (AirtableUpdate recordId fields) st in
      match airtable_update w recordId fields with
      | Normal _ =>
          respond (Response 200
                     (JObject {[ "message" := JString "Successfully generated audio and updated records.";
                                 "audioUrl" := JString audioUrl;
                                 "recordId" := recordId ]})) st1
      | Throw error => respond_500 error st1
      end
  end.

Definition is_pending (st : state) : bool :=
  match promise st with
  | Pending => true
  | _ => false
  end.

(** The listener of one event of the socket; an exception that leaves it is
    caught nowhere in the module. *)
Definition listener (w : World) (text recordId : json) (ev : ws_event) (st : state) : state :=
  match ev with
  | EvOpen => on_open text st
  | EvMessage m =>
      match on_message m st with
      | Normal st' => st'
      | Throw e => escape e st
      end
  | EvError e => on_error e st
  | EvClose => on_close w recordId st
  end.

(** One event is delivered: its listener runs and, if it has settled the
    promise, the awaiting [handler] continues.  Under Node's default policy
    an uncaught exception ends the process, so no event is delivered after
    one. *)
Definition deliver (w : World) (text recordId : json) (st : state) (ev : ws_event) : state :=
  match uncaught st with
  | Some _ => st
  | None =>
      let st' := listener w text recordId ev st in
      if is_pending st && negb (is_pending st')
      then handler_resume w recordId st'
      else st'
  end.

Definition run (w : World) (text recordId : json) (evs : list ws_event) (st : state) : state :=
  foldl (deliver w text recordId) st evs.

(** [generateAudioWithTimestamps(text, recordId)] followed to the end of the
    socket's events. *)
Definition generateAudioWithTimestamps (w : World) (text recordId : json) (st : state) : state :=
  run w text recordId (ws_events w)
      (log (WebSocketOpen (socketUrl w) (env w !! "ELEVENLABS_API_KEY")) st).

Record request : Type := Request { method : string; req_body : option json }.

Definition handler (w : World) (req : request) : state :=
  if negb (String.eqb (method req) "POST")
  then respond (Response 405 (JObject {[ "message" := JString "Method Not Allowed. Use POST." ]})) initial
  else
    match req_body req with
    | None =>
        escape (TypeError "Cannot destructure property 'recordId' of 'req.body' as it is undefined.") initial
    | Some JNull =>
        escape (TypeError "Cannot destructure property 'recordId' of 'req.body' as it is null.") initial
    | Some b =>
        match get_prop b "recordId" with
        | Throw e => escape e initial
        | Normal None =>
            respond (Response 400 (JObject {[ "message" := JString "Missing required field: recordId" ]})) initial
        | Normal (Some recordId) =>
            if negb (truthy (Some recordId))
            then respond (Response 400 (JObject {[ "message" := JString "Missing required field: recordId" ]})) initial
            else
              (* console.log(`... ${recordId}`), before the try block *)
              match ToString recordId with
              | Throw e => escape e initial
              | Normal _ =>
                  let st := log (AirtableFind recordId) initial in
                  match airtable_find w recordId with
                  | Throw error => respond_500 error st
                  | Normal record =>
                      match record !! "Script" with
                      | None =>
                          respond_500 (Error "Script field is empty or not found in Airtable record.") st
                      | Some scriptText =>
                          if negb (truthy (Some scriptText))
                          then respond_500 (Error "Script field is empty or not found in Airtable record.") st
                          else generateAudioWithTimestamps w scriptText recordId st
                      end
                  end
              end
        end
    end.


(** The state in which [handler] calls [generateAudioWithTimestamps]: the
    record was fetched and the socket was created. *)
Definition session_start (w : World) (recordId : json) : state :=
  log (WebSocketOpen (socketUrl w) (env w !! "ELEVENLABS_API_KEY"))
      (log (AirtableFind recordId) initial).

Definition session (w : World) (text recordId : json) (evs : list ws_event) : state :=
  run w text recordId evs (session_start w recordId).

(** ** Vocabulary of the specification *)

(** The frames transmitted on the socket, in order. *)
Definition outbound (cs : list call) : list json :=
  omap (fun c => match c with WebSocketSend p => Some p | _ => None end) cs.

(** The uploads requested from the storage, in order. *)
Definition uploads (cs : list call) : list put_object :=
  omap (fun c => match c with S3Send cmd => Some cmd | _ => None end) cs.

(** The write-backs requested from the record store, in order. *)
Definition write_backs (cs : list call) : list (json * update_fields) :=
  omap (fun c => match c with AirtableUpdate r f => Some (r, f) | _ => None end) cs.

(** The connections opened to the synthesis provider, in order. *)
Definition connections (cs : list call) : list string :=
  omap (fun c => match c with WebSocketOpen u _ => Some u | _ => None end) cs.

(** The own field [key] of a frame that parsed to an object. *)
Definition field (m : message) (key : string) : option json :=
  match m with
  | Parsed (JObject fields) => fields !! key
  | _ => None
  end.

(** The audio payload of a frame: its [audio] field, when truthy. *)
Definition audio_payload (m : message) : option json :=
  if truthy (field m "audio") then field m "audio" else None.

(** The alignment payload of a frame: its [alignment] field, when truthy. *)
Definition alignment_payload (m : message) : option json :=
  if truthy (field m "alignment") then field m "alignment" else None.

(** The decoded audio fragment of a frame. *)
Definition audio_fragment (m : message) : option (list byte) :=
  a ← audio_payload m;
  match Buffer_from a with
  | Normal b => Some b
  | Throw _ => None
  end.

(** The message listener returns normally on [m]. *)
Definition accepted (m : message) : bool :=
  match on_message m initial with
  | Normal _ => true
  | Throw _ => false
  end.

(** What one event adds to the fragment list and to the timing list. *)
Definition fragments_of (ev : ws_event) : list (list byte) :=
  match ev with
  | EvMessage m => if accepted m then option_list (audio_fragment m) else []
  | _ => []
  end.

Definition alignments_of (ev : ws_event) : list json :=
  match ev with
  | EvMessage m => if accepted m then option_list (alignment_payload m) else []
  | _ => []
  end.

(** The upload the close listener requests for the accumulated [chunks]. *)
Definition upload_command (w : World) (recordId : json) (chunks : list (list byte)) : put_object :=
  PutObjectCommand (env w !! "AWS_S3_BUCKET_NAME") (fileName recordId (Date_now w))
                   (concat chunks) "audio/mpeg".

(** The address the session resolves with. *)
Definition session_url (w : World) (recordId : json) : string :=
  audioUrl_of w (fileName recordId (Date_now w)).

(** The response [handler] owes for a settled session promise. *)
Definition owed_response (w : World) (recordId : json) (p : settlement) : option response :=
  match p with
  | Pending => None
  | Rejected error => Some (internal_error error)
  | Fulfilled audioUrl ts =>
      match airtable_update w recordId (UpdateFields audioUrl ts) with
      | Normal _ =>
          Some (Response 200
                  (JObject {[ "message" := JString "Successfully generated audio and updated records.";
                              "audioUrl" := JString audioUrl;
                              "recordId" := recordId ]}))
      | Throw error => Some (internal_error error)
      end
  end.

End Program.

(** ** A reference platform for concrete runs

    [reference_base64] decodes RFC 4648 text (either alphabet), skipping
    characters outside the alphabet and stopping at the first [=], as Node
    does.  The other three fields of [reference_platform] are stand-ins, not
    Node's functions: the runs below convert no number to text and give
    [Buffer.from] no array and no object, and where it is given a number only
    the fact that it throws is used, not the text of the error.  The theorems
    hold for every [Platform]. *)

Definition base64_digit (c : ascii) : option N :=
  let n := N_of_ascii c in
  if (65 <=? n)%N && (n <=? 90)%N then Some (n - 65)%N
  else if (97 <=? n)%N && (n <=? 122)%N then Some (n - 71)%N
  else if (48 <=? n)%N && (n <=? 57)%N then Some (n + 4)%N
  else if (n =? 43)%N || (n =? 45)%N then Some 62%N
  else if (n =? 47)%N || (n =? 95)%N then Some 63%N
  else None.

Definition byte_of_N (n : N) : byte :=
  match Byte.of_N (n mod 256) with
  | Some b => b
  | None => "000"%byte
  end.

Fixpoint reference_base64_go (s : string) (acc : N) (bits : N) : list byte :=
  match s with
  | "" => []
  | String c rest =>
      if Ascii.eqb c "="%char then []
      else
        match base64_digit c with
        | None => reference_base64_go rest acc bits
        | Some d =>
            let acc' := (acc * 64 + d)%N in
            let bits' := (bits + 6)%N in
            if (8 <=? bits')%N
            then byte_of_N (acc' / 2 ^ (bits' - 8))
                 :: reference_base64_go rest (acc' mod 2 ^ (bits' - 8)) (bits' - 8)
            else reference_base64_go rest acc' bits'
        end
  end.

Definition reference_base64 (s : string) : list byte := reference_base64_go s 0 0.

Definition reference_platform : Platform := {|
  base64_decode := reference_base64;
  Buffer_from_object := fun _ => None;
  received := fun _ => "";
  Number_toString := fun _ => "NaN";
|}.



(** ** Concrete worlds and frames *)

Definition sample_env : gmap string string :=
  {[ "VOICE_ID" := "v1"%string;
     "ELEVENLABS_API_KEY" := "secret"%string;
     "AWS_S3_BUCKET_NAME" := "podcasts"%string;
     "AWS_S3_REGION" := "eu-west-1"%string ]}.

(** A world in which every collaborator succeeds and the record holds the
    script [Hello]. *)
Definition sample_world (evs : list ws_event) (now : Z) : World := {|
  env := sample_env;
  airtable_find := fun _ => Normal {[ "Script" := JString "Hello" ]};
  ws_events := evs;
  Date_now := now;
  s3_send := fun _ => Normal ();
  airtable_update := fun _ _ => Normal ();
|}.

(** The same world, but the storage refuses the upload. *)
Definition upload_denied : js_error := Error "Access Denied".

Definition world_without_storage (evs : list ws_event) (now : Z) : World := {|
  env := sample_env;
  airtable_find := fun _ => Normal {[ "Script" := JString "Hello" ]};
  ws_events := evs;
  Date_now := now;
  s3_send := fun _ => Throw upload_denied;
  airtable_update := fun _ _ => Normal ();
|}.

(** The same world, but the record store refuses the write-back. *)
Definition update_refused : js_error := Error "Record not found".

Definition world_without_write_back (evs : list ws_event) (now : Z) : World := {|
  env := sample_env;
  airtable_find := fun _ => Normal {[ "Script" := JString "Hello" ]};
  ws_events := evs;
  Date_now := now;
  s3_send := fun _ => Normal ();
  airtable_update := fun _ _ => Throw update_refused;
|}.

(** A world in which the record cannot be fetched. *)
Definition world_without_record : World := {|
  env := sample_env;
  airtable_find := fun _ => Throw update_refused;
  ws_events := [];
  Date_now := 0;
  s3_send := fun _ => Normal ();
  airtable_update := fun _ _ => Normal ();
|}.

(** The frame [{"audio": b64}]. *)
Definition audio_message (b64 : string) : message :=
  Parsed (JObject {[ "audio" := JString b64 ]}).

(** The frame [{"alignment": {"chars": [c]}}]. *)
Definition alignment_of (c : string) : json :=
  JObject {[ "chars" := JArray [JString c] ]}.

Definition alignment_message (c : string) : message :=
  Parsed (JObject {[ "alignment" := alignment_of c ]}).

(** The frame [{"audio": b64, "alignment": {"chars": [c]}}]. *)
Definition full_message (b64 c : string) : message :=
  Parsed (JObject {[ "audio" := JString b64; "alignment" := alignment_of c ]}).

(** The status frame [{"isFinal": true}]. *)
Definition status_message : message :=
  Parsed (JObject {[ "isFinal" := JBool true ]}).

Definition post (b : json) : request := Request "POST" (Some b).

Definition socket_hang_up : js_error := Error "socket hang up".

Definition unexpected_token : js_error :=
  JsError "SyntaxError" "Unexpected token o in JSON at position 1".

(** The request body [{"recordId": "rec1"}] and the script of the sample
    worlds. *)
Definition rec1 : json := JString "rec1".
Definition rec1_body : json := JObject {[ "recordId" := rec1 ]}.
Definition hello : json := JString "Hello".

(** Four frames: audio, alignment, a status frame, and one with both. *)
Definition sample_frames : list message :=
  [audio_message "QUJD"; alignment_message "a"; status_message; full_message "RA==" "b"].


(** ** Further vocabulary *)

(** The string holds no dash. *)
Fixpoint dash_free (s : string) : bool :=
  match s with
  | "" => true
  | String c rest => negb (Ascii.eqb c "-") && dash_free rest
  end.

(** * The handler of [src/unnamed/part_000]

    This revision of the module asks the provider for one streamed HTTP
    response instead of opening a socket.  [handler] is one [async] function;
    it is embedded as a computation that logs its calls to the collaborators
    and either returns the response or throws into the [catch] block. *)

Module Rest.

(** A chunk of the response body, with what [JSON.parse(chunk.toString())]
    makes of it. *)
Record chunk : Type := Chunk {
  chunk_bytes : list byte;
  chunk_json : completion json;
}.

(** What [fetch] resolves with: the status, what [text()] resolves with, the
    chunks the body yields, and the error the body throws after them, if
    any. *)
Record fetch_response : Type := FetchResponse {
  response_status : Z;
  response_text : completion string;
  response_body : list chunk;
  response_body_error : option js_error;
}.

(** [response.ok] *)
Definition ok (r : fetch_response) : bool :=
  (200 <=? response_status r)%Z && (response_status r <? 300)%Z.

Record fetch_request : Type := FetchRequest {
  fetch_url : string;
  fetch_method : string;
  fetch_content_type : string;
  fetch_xi_api_key : option string;
  fetch_body : json;
}.

Inductive call : Type :=
  | AirtableFind (recordId : json)
  | Fetch (request : fetch_request)
  | S3Send (cmd : put_object)
  | AirtableUpdate (recordId : json) (fields : update_fields).

(** The collaborators shared with the socket revisions (their [ws_events]
    play no part here) and the provider's HTTP endpoint. *)
Record Surroundings : Type := {
  collaborators : World;
  fetch : fetch_request -> completion fetch_response;
}.

(** What the function has done so far. *)
Record progress : Type := Progress {
  calls : list call;
  s3_objects : gmap string (list byte * string);
}.

(** A step of the [async] function: it may log calls, and returns or
    throws. *)
Definition step (A : Type) : Type := progress -> progress * completion A.

#[global] Instance step_ret : MRet step := fun A a p => (p, Normal a).

#[global] Instance step_bind : MBind step := fun A B k c p =>
  match c p with
  | (p', Normal a) => k a p'
  | (p', Throw e) => (p', Throw e)
  end.

(** [await] of something that is no call to a collaborator. *)
Definition awaited {A} (answer : completion A) : step A := fun p => (p, answer).

Definition throw {A} (e : js_error) : step A := awaited (Throw e).

(** [await] of a collaborator's answer, after logging the call. *)
Definition await {A} (c : call) (answer : completion A) : step A :=
  fun p => (Progress (calls p ++ [c]) (s3_objects p), answer).

Definition stored (k : string) (o : list byte * string) : step unit :=
  fun p => (Progress (calls p) (<[k := o]> (s3_objects p)), Normal ()).

Section Program.
Context `{Platform}.

(** One turn of the [for await] loop: the chunk that parses is a timestamp,
    the chunk that does not is audio. *)
Definition loop_body (arrays : list (list byte) * list json) (c : chunk)
  : list (list byte) * list json :=
  let '(audioChunks, timestamps) := arrays in
  match chunk_json c with
  | Normal timestampData => (audioChunks, timestamps ++ [timestampData])
  | Throw _ => (audioChunks ++ [chunk_bytes c], timestamps)
  end.

Definition read_stream (body : list chunk) : list (list byte) * list json :=
  foldl loop_body ([], []) body.

Definition request_for (w : Surroundings) (scriptText : json) : fetch_request :=
  FetchRequest
    ("https://api.elevenlabs.io/v1/text-to-speech/"
     +:+ template_env (env (collaborators w) !! "VOICE_ID")
     +:+ "/stream?output_format=mp3_44100_128_timestamps")
    "POST" "application/json"
    (env (collaborators w) !! "ELEVENLABS_API_KEY")
    (JObject {[ "model_id" := JString "eleven_multilingual_v2";
                "text" := scriptText;
                "voice_settings" :=
                  JObject {[ "stability" := JNumber 0.5;
                             "similarity_boost" := JNumber 0.75 ]} ]}).

Definition provider_error (r : fetch_response) (errorBody : string) : js_error :=
  Error ("ElevenLabs API Error: " +:+ pretty (response_status r) +:+ " " +:+ errorBody).

Definition success (audioUrl : string) (recordId : json) : response :=
  Response 200
    (JObject {[ "message" := JString "Successfully generated audio and updated records.";
                "audioUrl" := JString audioUrl;
                "recordId" := recordId ]}).

(** The [try] block. *)
Definition try_block (w : Surroundings) (recordId : json) : step response :=
  record ← await (AirtableFind recordId) (airtable_find (collaborators w) recordId);
  match record !! "Script" with
  | None => throw (Error "Script field is empty or not found in Airtable record.")
  | Some scriptText =>
      if negb (truthy (Some scriptText))
      then throw (Error "Script field is empty or not found in Airtable record.")
      else
        elevenLabsResponse ← await (Fetch (request_for w scriptText))
                                   (fetch w (request_for w scriptText));
        if negb (ok elevenLabsResponse)
        then
          errorBody ← awaited (response_text elevenLabsResponse);
          throw (provider_error elevenLabsResponse errorBody)
        else
          let '(audioChunks, timestamps) := read_stream (response_body elevenLabsResponse) in
          match response_body_error elevenLabsResponse with
          | Some e => throw e
          | None =>
              let audioBuffer := concat audioChunks in
              let file := fileName recordId (Date_now (collaborators w)) in
              let s3Command :=
                PutObjectCommand (env (collaborators w) !! "AWS_S3_BUCKET_NAME")
                                 file audioBuffer "audio/mpeg" in
              _ ← await (S3Send s3Command) (s3_send (collaborators w) s3Command);
              _ ← stored file (audioBuffer, "audio/mpeg"%string);
              let audioUrl := audioUrl_of (collaborators w) file in
              let fields := UpdateFields audioUrl timestamps in
              _ ← await (AirtableUpdate recordId fields)
                        (airtable_update (collaborators w) recordId fields);
              mret (success audioUrl recordId)
          end
  end.

(** What a request comes to. *)
Record outcome : Type := Outcome {
  reached : progress;
  sent : option response;
  uncaught : option js_error;
}.

Definition nothing_done : progress := Progress [] ∅.

Definition handler (w : Surroundings) (req : request) : outcome :=
  if negb (String.eqb (method req) "POST")
  then Outcome nothing_done
         (Some (Response 405 (JObject {[ "message" := JString "Method Not Allowed. Use POST." ]})))
         None
  else
    match req_body req with
    | None =>
        Outcome nothing_done None
          (Some (TypeError "Cannot destructure property 'recordId' of 'req.body' as it is undefined."))
    | Some JNull =>
        Outcome nothing_done None
          (Some (TypeError "Cannot destructure property 'recordId' of 'req.body' as it is null."))
    | Some b =>
        match get_prop b "recordId" with
        | Throw e => Outcome nothing_done None (Some e)
        | Normal None =>
            Outcome nothing_done
              (Some (Response 400 (JObject {[ "message" := JString "Missing required field: recordId" ]})))
              None
        | Normal (Some recordId) =>
            if negb (truthy (Some recordId))
            then Outcome nothing_done
                   (Some (Response 400 (JObject {[ "message" := JString "Missing required field: recordId" ]})))
                   None
            else
              (* console.log(`... ${recordId}`), before the try block *)
              match ToString recordId with
              | Throw e => Outcome nothing_done None (Some e)
              | Normal _ =>
                  match try_block w recordId nothing_done with
                  | (p, Normal r) => Outcome p (Some r) None
                  | (p, Throw error) => Outcome p (Some (internal_error error)) None
                  end
              end
        end
    end.

(** *** Vocabulary *)

(** The bytes of a chunk that is taken as audio, and the value of a chunk
    that is taken as a timestamp. *)
Definition audio_of (c : chunk) : option (list byte) :=
  match chunk_json c with
  | Normal _ => None
  | Throw _ => Some (chunk_bytes c)
  end.

Definition timestamp_of (c : chunk) : option json :=
  match chunk_json c with
  | Normal v => Some v
  | Throw _ => None
  end.

(** The upload requested for a body, and the address reported. *)
Definition upload_for (w : Surroundings) (recordId : json) (body : list chunk) : put_object :=
  PutObjectCommand (env (collaborators w) !! "AWS_S3_BUCKET_NAME")
                   (fileName recordId (Date_now (collaborators w)))
                   (concat (omap audio_of body)) "audio/mpeg".

Definition url_for (w : Surroundings) (recordId : json) : string :=
  audioUrl_of (collaborators w) (fileName recordId (Date_now (collaborators w))).

(** The request passes the two gates, its record id converts to text for
    the log line, its record is found and holds the script [scriptText]. *)
Definition reaches_provider (w : Surroundings) (b recordId scriptText : json) : Prop :=
  get_prop b "recordId" = Normal (Some recordId)
  /\ truthy (Some recordId) = true
  /\ (exists s, ToString recordId = Normal s)
  /\ exists record,
       airtable_find (collaborators w) recordId = Normal record
       /\ record !! "Script" = Some scriptText
       /\ truthy (Some scriptText) = true.

(** The kinds of call, in the order the function makes them. *)
Definition kind (c : call) : nat :=
  match c with
  | AirtableFind _ => 0
  | Fetch _ => 1
  | S3Send _ => 2
  | AirtableUpdate _ _ => 3
  end.

End Program.

(** *** Concrete surroundings *)

Definition json_chunk (text : string) (v : json) : chunk :=
  Chunk (String.list_byte_of_string text) (Normal v).

Definition audio_chunk (bytes : list byte) : chunk :=
  Chunk bytes (Throw (JsError "SyntaxError" "Unexpected token in JSON at position 0")).

Definition responding (r : fetch_response) : Surroundings := {|
  collaborators := sample_world [] 1700000000123;
  fetch := fun _ => Normal r;
|}.

End Rest.

(** * The socket revision of [src/api/generate-audio.js], lines 292-438

    This revision sends the API key in the first frame instead of the
    connection headers, asks for generation with [try_trigger_generation],
    and reads the audio of a frame from [audio_chunk].  Its error and close
    listeners and its [handler] are, to the letter, those of the revision
    above.  (The revision at lines 1-153 has the same message, error and
    close listeners as this one.) *)

Module Revision3.
Section Program.
Context `{Platform}.

(** The first frame; [JSON.stringify] leaves out [xi_api_key] when the
    variable is not set. *)
Definition bosMessage (w : World) : json :=
  let fields : gmap string json :=
    {[ "text" := JString " ";
       "voice_settings" :=
         JObject {[ "stability" := JNumber 0.5; "similarity_boost" := JNumber 0.75 ]};
       "generation_config" :=
         JObject {[ "chunk_length_schedule" :=
                      JArray [JNumber 120; JNumber 160; JNumber 250; JNumber 290] ]} ]} in
  JObject match env w !! "ELEVENLABS_API_KEY" with
          | Some key => <["xi_api_key" := JString key]> fields
          | None => fields
          end.

Definition textMessage (text : json) : json :=
  JObject {[ "text" := text; "try_trigger_generation" := JBool true ]}.

(** [elevenlabsSocket.on('open', ...)] *)
Definition on_open (w : World) (text : json) (st : state) : state :=
  log (WebSocketSend eosMessage)
    (log (WebSocketSend (textMessage text))
       (log (WebSocketSend (bosMessage w)) st)).

(** [elevenlabsSocket.on('message', ...)] *)
Definition on_message (m : message) (st : state) : completion state :=
  data ← match m with
         | Malformed e => Throw e
         | Parsed d => Normal d
         end;
  audio_chunk ← get_prop data "audio_chunk";
  st1 ← (if truthy audio_chunk
         then match audio_chunk with
              | Some a => b ← Buffer_from a; Normal (push_audio b st)
              | None => Normal st
              end
         else Normal st);
  alignment ← get_prop data "alignment";
  if truthy alignment
  then match alignment with
       | Some a => Normal (push_timestamp a st1)
       | None => Normal st1
       end
  else Normal st1.

Definition listener (w : World) (text recordId : json) (ev : ws_event) (st : state) : state :=
  match ev with
  | EvOpen => on_open w text st
  | EvMessage m =>
      match on_message m st with
      | Normal st' => st'
      | Throw e => escape e st
      end
  | EvError e => on_error e st
  | EvClose => on_close w recordId st
  end.

Definition deliver (w : World) (text recordId : json) (st : state) (ev : ws_event) : state :=
  match uncaught st with
  | Some _ => st
  | None =>
      let st' := listener w text recordId ev st in
      if is_pending st && negb (is_pending st')
      then handler_resume w recordId st'
      else st'
  end.

Definition run (w : World) (text recordId : json) (evs : list ws_event) (st : state) : state :=
  foldl (deliver w text recordId) st evs.

(** [new WebSocket(socketUrl)]: no header. *)
Definition generateAudioWithTimestamps (w : World) (text recordId : json) (st : state) : state :=
  run w text recordId (ws_events w) (log (WebSocketOpen (socketUrl w) None) st).

Definition handler (w : World) (req : request) : state :=
  if negb (String.eqb (method req) "POST")
  then respond (Response 405 (JObject {[ "message" := JString "Method Not Allowed. Use POST." ]})) initial
  else
    match req_body req with
    | None =>
        escape (TypeError "Cannot destructure property 'recordId' of 'req.body' as it is undefined.") initial
    | Some JNull =>
        escape (TypeError "Cannot destructure property 'recordId' of 'req.body' as it is null.") initial
    | Some b =>
        match get_prop b "recordId" with
        | Throw e => escape e initial
        | Normal None =>
            respond (Response 400 (JObject {[ "message" := JString "Missing required field: recordId" ]})) initial
        | Normal (Some recordId) =>
            if negb (truthy (Some recordId))
            then respond (Response 400 (JObject {[ "message" := JString "Missing required field: recordId" ]})) initial
            else
              (* console.log(`... ${recordId}`), before the try block *)
              match ToString recordId with
              | Throw e => escape e initial
              | Normal _ =>
                  let st := log (AirtableFind recordId) initial in
                  match airtable_find w recordId with
                  | Throw error => respond_500 error st
                  | Normal record =>
                      match record !! "Script" with
                      | None =>
                          respond_500 (Error "Script field is empty or not found in Airtable record.") st
                      | Some scriptText =>
                          if negb (truthy (Some scriptText))
                          then respond_500 (Error "Script field is empty or not found in Airtable record.") st
                          else generateAudioWithTimestamps w scriptText recordId st
                      end
                  end
              end
        end
    end.

End Program.
End Revision3.

(** ** Comparing the two socket revisions *)

(** The frame with its [audio_chunk] field, if any, moved to [audio].  On
    [null] each revision throws, naming the field it reads; [null] is sent to
    a frame on which the other revision throws that same error. *)
Definition rekey (m : message) : message :=
  match m with
  | Parsed (JObject fields) =>
      Parsed (JObject match fields !! "audio_chunk" with
                      | Some a => <["audio" := a]> fields
                      | None => delete "audio" fields
                      end)
  | Parsed JNull =>
      Malformed (TypeError "Cannot read properties of null (reading 'audio_chunk')")
  | _ => m
  end.

Definition rekey_event (ev : ws_event) : ws_event :=
  match ev with
  | EvMessage m => EvMessage (rekey m)
  | _ => ev
  end.

(** The calls that do not go to the socket. *)
Definition off_socket (cs : list call) : list call :=
  omap (fun c => match c with
                 | WebSocketOpen _ _ | WebSocketSend _ => None
                 | _ => Some c
                 end) cs.

(** The state without its socket traffic. *)
Definition off_socket_state (st : state) : state :=
  State (audioChunks st) (timestamps st) (promise st) (off_socket (calls st))
        (s3_objects st) (sent st) (uncaught st).

(** The world with other events on the socket. *)
Definition with_events (w : World) (evs : list ws_event) : World := {|
  env := env w;
  airtable_find := airtable_find w;
  ws_events := evs;
  Date_now := Date_now w;
  s3_send := s3_send w;
  airtable_update := airtable_update w;
|}.

(** ** More concrete surroundings *)

(** The provider's answer to the sample request: a timestamp chunk between
    two audio chunks. *)
Definition sample_stream : list Rest.chunk :=
  [Rest.audio_chunk ["A"; "B"]%byte;
   Rest.json_chunk "{}" (JObject ∅);
   Rest.audio_chunk ["C"]%byte].

Definition stream_response : Rest.fetch_response :=
  Rest.FetchResponse 200 (Normal ""%string) sample_stream None.

Definition unauthorized : Rest.fetch_response :=
  Rest.FetchResponse 401 (Normal "Unauthorized"%string) [] None.

Definition rest_without_storage : Rest.Surroundings := {|
  Rest.collaborators := world_without_storage [] 5;
  Rest.fetch := fun _ => Normal stream_response;
|}.

Definition rest_without_write_back : Rest.Surroundings := {|
  Rest.collaborators := world_without_write_back [] 5;
  Rest.fetch := fun _ => Normal stream_response;
|}.

(** Frames as the revision of lines 154-292 expects them, and the same audio
    under [audio_chunk]. *)
Definition chunk_message (b64 : string) : message :=
  Parsed (JObject {[ "audio_chunk" := JString b64 ]}).

(** A record id that is truthy and cannot be converted to text, and the
    request body [{"recordId": {"toString": 1}}]. *)
Definition unconvertible : json := JObject {[ "toString" := JNumber 1 ]}.
Definition unconvertible_body : json := JObject {[ "recordId" := unconvertible ]}.

Definition cannot_convert : js_error := TypeError "Cannot convert object to primitive value".

(** * Properties *)

Section Properties.
Context `{Platform}.
Implicit Types (w : World) (st : state) (m : message) (ev : ws_event).

Lemma outbound_app cs1 cs2 : outbound (cs1 ++ cs2) = outbound cs1 ++ outbound cs2.
Proof. apply omap_app. Qed.

(** *** What a listener leaves alone *)

Lemma settle_calls s st : calls (settle s st) = calls st.
Proof. unfold settle. by destruct (promise st). Qed.

Lemma settle_audioChunks s st : audioChunks (settle s st) = audioChunks st.
Proof. unfold settle. by destruct (promise st). Qed.

Lemma settle_timestamps s st : timestamps (settle s st) = timestamps st.
Proof. unfold settle. by destruct (promise st). Qed.

Lemma settle_s3_objects s st : s3_objects (settle s st) = s3_objects st.
Proof. unfold settle. by destruct (promise st). Qed.

Lemma settle_sent s st : sent (settle s st) = sent st.
Proof. unfold settle. by destruct (promise st). Qed.

Lemma settle_uncaught s st : uncaught (settle s st) = uncaught st.
Proof. unfold settle. by destruct (promise st). Qed.

Lemma settle_promise s st :
  promise (settle s st) = match promise st with Pending => s | p => p end.
Proof. unfold settle. by destruct (promise st) eqn:E. Qed.

Lemma on_message_calls m st st' : on_message m st = Normal st' -> calls st' = calls st.
Proof.
  unfold on_message, mbind, completion_bind, Buffer_from, get_prop.
  intros Hm. repeat case_match; by simplify_eq.
Qed.

Lemma on_close_outbound w rid st :
  outbound (calls (on_close w rid st)) = outbound (calls st).
Proof.
  unfold on_close, resolve, reject. case_match.
  - by rewrite settle_calls.
  - case_match; rewrite settle_calls; simpl; rewrite outbound_app; simpl;
      by rewrite app_nil_r.
Qed.

Lemma handler_resume_outbound w rid st :
  outbound (calls (handler_resume w rid st)) = outbound (calls st).
Proof.
  unfold handler_resume. destruct (promise st); simpl; [done| |done].
  case_match; simpl; rewrite outbound_app; simpl; by rewrite app_nil_r.
Qed.

Lemma on_open_outbound text st :
  outbound (calls (on_open text st))
  = outbound (calls st) ++ [bosMessage; textMessage text; eosMessage].
Proof. unfold on_open. simpl. rewrite !outbound_app. simpl. by rewrite <- !app_assoc. Qed.

Lemma listener_outbound w text rid ev st :
  outbound (calls (listener w text rid ev st))
  = outbound (calls st)
    ++ match ev with EvOpen => [bosMessage; textMessage text; eosMessage] | _ => [] end.
Proof.
  destruct ev as [|m|e|]; simpl.
  - apply on_open_outbound.
  - rewrite app_nil_r. destruct (on_message m st) eqn:E; [|done].
    by rewrite (on_message_calls _ _ _ E).
  - rewrite app_nil_r. unfold on_error, reject. by rewrite settle_calls.
  - rewrite app_nil_r. apply on_close_outbound.
Qed.

Lemma deliver_outbound w text rid ev st :
  uncaught st = None ->
  outbound (calls (deliver w text rid st ev))
  = outbound (calls st)
    ++ match ev with EvOpen => [bosMessage; textMessage text; eosMessage] | _ => [] end.
Proof.
  intros Hu. unfold deliver. rewrite Hu.
  case_match; [rewrite handler_resume_outbound|]; apply listener_outbound.
Qed.

Lemma deliver_outbound_other w text rid ev st :
  ev <> EvOpen -> outbound (calls (deliver w text rid st ev)) = outbound (calls st).
Proof.
  intros Hev. unfold deliver. destruct (uncaught st) eqn:Hu; [done|].
  case_match; [rewrite handler_resume_outbound|];
    rewrite listener_outbound; destruct ev; try done; by rewrite app_nil_r.
Qed.

Lemma run_outbound_no_open w text rid evs st :
  EvOpen ∉ evs -> outbound (calls (run w text rid evs st)) = outbound (calls st).
Proof.
  revert st. induction evs as [|ev evs IH]; intros st Hno; simpl; [done|].
  apply not_elem_of_cons in Hno as [Hne Hno].
  unfold run in *. simpl. rewrite IH by done. by apply deliver_outbound_other.
Qed.

(** C6. When the connection opens, the driver transmits exactly three frames,
    in this order: the configuration frame with the voice settings, the frame
    with the whole text and [flush: true], and the end-of-stream frame whose
    text is empty; no other event of the session transmits anything. *)
Theorem open_transmits_three_frames w text rid evs st :
  uncaught st = None ->
  EvOpen ∉ evs ->
  outbound (calls (run w text rid (EvOpen :: evs) st))
  = outbound (calls st) ++ [bosMessage; textMessage text; eosMessage]
  /\ get_prop bosMessage "voice_settings"
     = Normal (Some (JObject {[ "stability" := JNumber 0.5;
                                "similarity_boost" := JNumber 0.75 ]}))
  /\ get_prop (textMessage text) "text" = Normal (Some text)
  /\ get_prop (textMessage text) "flush" = Normal (Some (JBool true))
  /\ eosMessage = JObject {[ "text" := JString "" ]}.
Proof.
  intros Hu Hno. split; [|done].
  unfold run. simpl. fold (run w text rid evs (deliver w text rid st EvOpen)).
  rewrite run_outbound_no_open by done. by rewrite deliver_outbound.
Qed.

(** *** The message listener *)

Ltac unfold_listener :=
  unfold accepted, audio_fragment, audio_payload, alignment_payload, field in *;
  unfold on_message, mbind, completion_bind, option_bind, Buffer_from, get_prop in *.

(** Whether the listener throws does not depend on the state, and when it
    returns it has appended the frame's audio fragment and its alignment
    payload, each if present, and changed nothing else. *)
Lemma on_message_accepted m st :
  accepted m = true ->
  on_message m st
  = Normal (State (audioChunks st ++ option_list (audio_fragment m))
                  (timestamps st ++ option_list (alignment_payload m))
                  (promise st) (calls st) (s3_objects st) (sent st) (uncaught st)).
Proof.
  destruct st. unfold_listener. intros Hacc.
  destruct m as [e|[]]; simpl in *; try done;
    repeat (case_match; simplify_eq; simpl in *; try done);
    by rewrite ?app_nil_r.
Qed.

Lemma on_message_rejected m st :
  accepted m = false -> exists e, on_message m st = Throw e.
Proof.
  unfold_listener. intros Hacc.
  destruct m as [e|[]]; simpl in *; try done;
    repeat (case_match; simplify_eq; simpl in *; try done); eauto.
Qed.

Lemma on_message_Normal_accepted m st st' :
  on_message m st = Normal st' -> accepted m = true.
Proof.
  intros Hm. destruct (accepted m) eqn:Hacc; [done|].
  destruct (on_message_rejected m st Hacc) as [e He]. congruence.
Qed.

Lemma deliver_message_accepted w text rid m st :
  uncaught st = None ->
  accepted m = true ->
  deliver w text rid st (EvMessage m)
  = State (audioChunks st ++ option_list (audio_fragment m))
          (timestamps st ++ option_list (alignment_payload m))
          (promise st) (calls st) (s3_objects st) (sent st) None.
Proof.
  intros Hu Hacc. unfold deliver. rewrite Hu. simpl.
  rewrite on_message_accepted by done.
  unfold is_pending; simpl. rewrite Hu. by destruct (promise st).
Qed.

Lemma omap_cons_option_list {A B} (f : A -> option B) x l :
  omap f (x :: l) = option_list (f x) ++ omap f l.
Proof. simpl. by destruct (f x). Qed.

Lemma run_messages w text rid ms st :
  uncaught st = None ->
  Forall (fun m => accepted m = true) ms ->
  run w text rid (EvMessage <$> ms) st
  = State (audioChunks st ++ omap audio_fragment ms)
          (timestamps st ++ omap alignment_payload ms)
          (promise st) (calls st) (s3_objects st) (sent st) None.
Proof.
  intros Hu Hall. revert st Hu.
  induction Hall as [|m ms Hm _ IH]; intros st Hu.
  - destruct st; simpl in *. by rewrite !app_nil_r, Hu.
  - unfold run in *. rewrite fmap_cons. simpl foldl.
    rewrite deliver_message_accepted by done.
    rewrite !omap_cons_option_list, !app_assoc.
    by rewrite IH.
Qed.

Lemma run_app w text rid evs1 evs2 st :
  run w text rid (evs1 ++ evs2) st = run w text rid evs2 (run w text rid evs1 st).
Proof. apply foldl_app. Qed.

Lemma run_cons w text rid ev evs st :
  run w text rid (ev :: evs) st = run w text rid evs (deliver w text rid st ev).
Proof. done. Qed.

Lemma deliver_open w text rid st :
  uncaught st = None ->
  deliver w text rid st EvOpen = on_open text st.
Proof.
  intros Hu. unfold deliver. rewrite Hu. simpl.
  unfold is_pending, on_open; simpl. by destruct (promise st).
Qed.

(** The state of a session after the connection opened and the frames [ms]
    were received. *)
Lemma session_streaming w text rid ms :
  Forall (fun m => accepted m = true) ms ->
  session w text rid (EvOpen :: (EvMessage <$> ms))
  = State (omap audio_fragment ms) (omap alignment_payload ms) Pending
          [AirtableFind rid;
           WebSocketOpen (socketUrl w) (env w !! "ELEVENLABS_API_KEY");
           WebSocketSend bosMessage; WebSocketSend (textMessage text);
           WebSocketSend eosMessage]
          ∅ None None.
Proof.
  intros Hall. unfold session. rewrite run_cons, deliver_open by done.
  by rewrite run_messages.
Qed.

(** *** The close listener, from a state in which the promise is pending *)

Ltac unfold_close :=
  unfold deliver, listener, on_close, on_error, resolve, reject, settle, handler_resume,
    respond_500, respond, store, log, is_pending, owed_response, internal_error,
    upload_command, session_url in *.

Lemma close_without_chunks w text rid st :
  uncaught st = None -> promise st = Pending -> audioChunks st = [] ->
  deliver w text rid st EvClose
  = State [] (timestamps st) (Rejected EmptyAudioError) (calls st) (s3_objects st)
          (owed_response w rid (Rejected EmptyAudioError)) None.
Proof.
  destruct st; simpl. intros -> -> ->. by unfold_close.
Qed.

Lemma close_upload_fails w text rid st e :
  uncaught st = None -> promise st = Pending -> audioChunks st <> [] ->
  s3_send w (upload_command w rid (audioChunks st)) = Throw e ->
  deliver w text rid st EvClose
  = State (audioChunks st) (timestamps st) (Rejected e)
          (calls st ++ [S3Send (upload_command w rid (audioChunks st))])
          (s3_objects st) (owed_response w rid (Rejected e)) None.
Proof.
  destruct st as [chunks ts p cs objs r u]; simpl. intros -> -> Hne Hs3.
  unfold_close; cbn [audioChunks uncaught promise] in *.
  destruct (Nat.eqb_spec (length chunks) 0) as [Hl|_]; [by apply nil_length_inv in Hl|].
  by rewrite Hs3.
Qed.

Lemma close_upload_succeeds w text rid st :
  uncaught st = None -> promise st = Pending -> audioChunks st <> [] ->
  s3_send w (upload_command w rid (audioChunks st)) = Normal () ->
  deliver w text rid st EvClose
  = State (audioChunks st) (timestamps st)
          (Fulfilled (session_url w rid) (timestamps st))
          (calls st ++ [S3Send (upload_command w rid (audioChunks st));
                        AirtableUpdate rid (UpdateFields (session_url w rid) (timestamps st))])
          (<[fileName rid (Date_now w) := (concat (audioChunks st), "audio/mpeg"%string)]>
             (s3_objects st))
          (owed_response w rid (Fulfilled (session_url w rid) (timestamps st))) None.
Proof.
  destruct st as [chunks ts p cs objs r u]; simpl. intros -> -> Hne Hs3.
  unfold_close; cbn [audioChunks uncaught promise] in *.
  destruct (Nat.eqb_spec (length chunks) 0) as [Hl|_]; [by apply nil_length_inv in Hl|].
  rewrite Hs3. cbn. rewrite <- app_assoc. by case_match.
Qed.

Lemma session_closing w text rid evs :
  session w text rid (evs ++ [EvClose])
  = deliver w text rid (session w text rid evs) EvClose.
Proof. unfold session. by rewrite run_app. Qed.

Lemma on_message_unrecognized m st :
  accepted m = true -> audio_payload m = None -> alignment_payload m = None ->
  on_message m st = Normal st.
Proof.
  intros Hacc Ha Hal. rewrite on_message_accepted by done.
  unfold audio_fragment. rewrite Ha, Hal. simpl.
  destruct st; simpl. by rewrite !app_nil_r.
Qed.

(** *** Invariants of a session *)

Lemma run_invariant (P : state -> Prop) w text rid evs st :
  (forall st ev, P st -> P (deliver w text rid st ev)) ->
  P st -> P (run w text rid evs st).
Proof.
  intros Hstep. revert st. induction evs as [|ev evs IH]; intros st HP; [done|].
  rewrite run_cons. by apply IH, Hstep.
Qed.

Ltac listener_cases st ev :=
  let m := fresh "m" in
  let Hacc := fresh "Hacc" in
  destruct ev as [|m| |]; cbn [listener];
  [ unfold on_open, log
  | destruct (accepted m) eqn:Hacc;
    [ rewrite (on_message_accepted m st Hacc)
    | let e := fresh "e" in destruct (on_message_rejected m st Hacc) as [e ->] ]
  | unfold on_error, reject
  | unfold on_close, resolve, reject, store, log ].

Lemma listener_audioChunks w text rid ev st :
  audioChunks (listener w text rid ev st) = audioChunks st ++ fragments_of ev.
Proof.
  listener_cases st ev; unfold fragments_of; rewrite ?Hacc;
    repeat case_match; rewrite ?settle_audioChunks; simpl; by rewrite ?app_nil_r.
Qed.

Lemma listener_timestamps w text rid ev st :
  timestamps (listener w text rid ev st) = timestamps st ++ alignments_of ev.
Proof.
  listener_cases st ev; unfold alignments_of; rewrite ?Hacc;
    repeat case_match; rewrite ?settle_timestamps; simpl; by rewrite ?app_nil_r.
Qed.

Lemma listener_sent w text rid ev st :
  sent (listener w text rid ev st) = sent st.
Proof.
  listener_cases st ev; repeat case_match; by rewrite ?settle_sent.
Qed.

Lemma listener_promise_settled w text rid ev st :
  promise st <> Pending -> promise (listener w text rid ev st) = promise st.
Proof.
  intros Hp. listener_cases st ev; repeat case_match;
    rewrite ?settle_promise; simpl; try done; by destruct (promise st).
Qed.

Lemma listener_fulfils w text rid ev st url ts :
  promise st = Pending ->
  promise (listener w text rid ev st) = Fulfilled url ts ->
  ev = EvClose /\ audioChunks st <> [] /\ url = session_url w rid /\ ts = timestamps st
  /\ s3_send w (upload_command w rid (audioChunks st)) = Normal ().
Proof.
  intros Hp. listener_cases st ev; simpl; rewrite ?settle_promise, ?Hp; try congruence.
  destruct (Nat.eqb_spec (length (audioChunks st)) 0) as [Hl|Hl];
    rewrite ?settle_promise; simpl; rewrite ?Hp; [done|].
  fold (upload_command w rid (audioChunks st)).
  destruct (s3_send w (upload_command w rid (audioChunks st))) as [[]|e] eqn:Hs3;
    rewrite settle_promise; simpl; rewrite ?Hp; [|done].
  intros [= <- <-]. repeat split; try done. by destruct (audioChunks st).
Qed.

Lemma listener_rejects w text rid ev st e :
  promise st = Pending ->
  promise (listener w text rid ev st) = Rejected e ->
  ev = EvError e
  \/ (ev = EvClose /\ audioChunks st = [] /\ e = EmptyAudioError)
  \/ (ev = EvClose /\ audioChunks st <> []
      /\ s3_send w (upload_command w rid (audioChunks st)) = Throw e).
Proof.
  intros Hp. listener_cases st ev; simpl; rewrite ?settle_promise, ?Hp; try congruence.
  - intros [= ->]. by left.
  - destruct (Nat.eqb_spec (length (audioChunks st)) 0) as [Hl|Hl];
      rewrite ?settle_promise; simpl; rewrite ?Hp.
    + intros [= <-]. right; left. by apply nil_length_inv in Hl.
    + fold (upload_command w rid (audioChunks st)).
      destruct (s3_send w (upload_command w rid (audioChunks st))) as [[]|e'] eqn:Hs3;
        rewrite settle_promise; simpl; rewrite ?Hp; [done|].
      intros [= ->]. right; right. repeat split; try done. by destruct (audioChunks st).
Qed.

Lemma listener_uploads w text rid ev st :
  uploads (calls (listener w text rid ev st))
  = uploads (calls st)
    ++ match ev with
       | EvClose => match audioChunks st with
                    | [] => []
                    | _ => [upload_command w rid (audioChunks st)]
                    end
       | _ => []
       end.
Proof.
  listener_cases st ev; simpl; rewrite ?settle_calls, ?app_nil_r; try done.
  - unfold uploads. by rewrite !omap_app, !app_nil_r.
  - destruct (audioChunks st) eqn:Hc; simpl; rewrite ?settle_calls, ?app_nil_r; [done|].
    case_match; rewrite settle_calls; simpl; unfold uploads; by rewrite omap_app.
Qed.

Lemma listener_write_backs w text rid ev st :
  write_backs (calls (listener w text rid ev st)) = write_backs (calls st).
Proof.
  listener_cases st ev; simpl; rewrite ?settle_calls; try done.
  - unfold write_backs. by rewrite !omap_app, !app_nil_r.
  - repeat case_match; rewrite settle_calls; simpl; try done;
      unfold write_backs; by rewrite omap_app, app_nil_r.
Qed.

Lemma listener_connections w text rid ev st :
  connections (calls (listener w text rid ev st)) = connections (calls st).
Proof.
  listener_cases st ev; simpl; rewrite ?settle_calls; try done.
  - unfold connections. by rewrite !omap_app, !app_nil_r.
  - repeat case_match; rewrite settle_calls; simpl; try done;
      unfold connections; by rewrite omap_app, app_nil_r.
Qed.

Lemma listener_s3_objects w text rid ev st k :
  is_Some (s3_objects st !! k) -> is_Some (s3_objects (listener w text rid ev st) !! k).
Proof.
  intros Hk. listener_cases st ev; simpl; rewrite ?settle_s3_objects; try done.
  repeat case_match; rewrite settle_s3_objects; simpl; try done.
  rewrite lookup_insert. by case_decide.
Qed.

(** *** The continuation of [handler] *)

Lemma handler_resume_promise w rid st : promise (handler_resume w rid st) = promise st.
Proof. unfold handler_resume. by repeat case_match. Qed.

Lemma handler_resume_audioChunks w rid st :
  audioChunks (handler_resume w rid st) = audioChunks st.
Proof. unfold handler_resume. by repeat case_match. Qed.

Lemma handler_resume_timestamps w rid st :
  timestamps (handler_resume w rid st) = timestamps st.
Proof. unfold handler_resume. by repeat case_match. Qed.

Lemma handler_resume_s3_objects w rid st :
  s3_objects (handler_resume w rid st) = s3_objects st.
Proof. unfold handler_resume. by repeat case_match. Qed.

Lemma handler_resume_uncaught w rid st :
  uncaught (handler_resume w rid st) = uncaught st.
Proof. unfold handler_resume. by repeat case_match. Qed.

Lemma handler_resume_sent w rid st :
  promise st <> Pending -> sent (handler_resume w rid st) = owed_response w rid (promise st).
Proof. unfold handler_resume, owed_response. intros Hp. by repeat case_match. Qed.

Lemma handler_resume_uploads w rid st :
  uploads (calls (handler_resume w rid st)) = uploads (calls st).
Proof.
  unfold handler_resume, uploads. repeat case_match; simpl; try done;
    by rewrite omap_app, app_nil_r.
Qed.

Lemma handler_resume_connections w rid st :
  connections (calls (handler_resume w rid st)) = connections (calls st).
Proof.
  unfold handler_resume, connections. repeat case_match; simpl; try done;
    by rewrite omap_app, app_nil_r.
Qed.

Lemma handler_resume_write_backs w rid st :
  write_backs (calls (handler_resume w rid st))
  = write_backs (calls st)
    ++ match promise st with
       | Fulfilled url ts => [(rid, UpdateFields url ts)]
       | _ => []
       end.
Proof.
  unfold handler_resume, write_backs. repeat case_match; simpl; simplify_eq;
    rewrite ?app_nil_r; try done; by rewrite omap_app.
Qed.

(** *** One delivered event *)

Lemma deliver_crashed w text rid st ev e :
  uncaught st = Some e -> deliver w text rid st ev = st.
Proof. unfold deliver. by intros ->. Qed.

Lemma deliver_settled w text rid st ev :
  uncaught st = None -> promise st <> Pending ->
  deliver w text rid st ev = listener w text rid ev st.
Proof.
  unfold deliver, is_pending. intros -> Hp. by destruct (promise st).
Qed.

Lemma deliver_still_pending w text rid st ev :
  uncaught st = None -> promise (listener w text rid ev st) = Pending ->
  deliver w text rid st ev = listener w text rid ev st.
Proof.
  unfold deliver, is_pending. intros -> ->. by rewrite andb_false_r.
Qed.

Lemma deliver_settles w text rid st ev :
  uncaught st = None -> promise st = Pending ->
  promise (listener w text rid ev st) <> Pending ->
  deliver w text rid st ev = handler_resume w rid (listener w text rid ev st).
Proof.
  unfold deliver, is_pending. intros -> -> Hp.
  by destruct (promise (listener w text rid ev st)).
Qed.

(** The three ways an event is delivered. *)
Lemma deliver_cases w text rid st ev :
  deliver w text rid st ev = st /\ is_Some (uncaught st)
  \/ (deliver w text rid st ev = listener w text rid ev st
      /\ uncaught st = None
      /\ promise (listener w text rid ev st) = promise st)
  \/ (deliver w text rid st ev = handler_resume w rid (listener w text rid ev st)
      /\ uncaught st = None
      /\ promise st = Pending /\ promise (listener w text rid ev st) <> Pending).
Proof.
  destruct (uncaught st) as [e|] eqn:Hu.
  { left. split; [by eapply deliver_crashed|done]. }
  right. destruct (promise st) eqn:Hp.
  - destruct (promise (listener w text rid ev st)) eqn:Hp'.
    + left. by rewrite deliver_still_pending.
    + right. rewrite deliver_settles; by rewrite ?Hp, ?Hp'.
    + right. rewrite deliver_settles; by rewrite ?Hp, ?Hp'.
  - left. rewrite deliver_settled, listener_promise_settled; by rewrite ?Hp.
  - left. rewrite deliver_settled, listener_promise_settled; by rewrite ?Hp.
Qed.

Lemma run_crashed w text rid evs st e :
  uncaught st = Some e -> run w text rid evs st = st.
Proof.
  intros Hu. induction evs as [|ev evs IH]; [done|].
  by rewrite run_cons, (deliver_crashed _ _ _ _ _ _ Hu).
Qed.

(** *** Invariants of delivery *)

Lemma deliver_promise_settled w text rid st ev :
  promise st <> Pending -> promise (deliver w text rid st ev) = promise st.
Proof.
  intros Hp. destruct (deliver_cases w text rid st ev) as [[-> _]|[(-> & _ & Hl)|(_ & _ & Hp' & _)]];
    done.
Qed.

Lemma deliver_sent_settled w text rid st ev :
  promise st <> Pending -> sent (deliver w text rid st ev) = sent st.
Proof.
  intros Hp. destruct (deliver_cases w text rid st ev) as [[-> _]|[(-> & _ & Hl)|(_ & _ & Hp' & _)]];
    try done. apply listener_sent.
Qed.

Lemma deliver_write_backs_settled w text rid st ev :
  promise st <> Pending ->
  write_backs (calls (deliver w text rid st ev)) = write_backs (calls st).
Proof.
  intros Hp. destruct (deliver_cases w text rid st ev) as [[-> _]|[(-> & _ & Hl)|(_ & _ & Hp' & _)]];
    try done. apply listener_write_backs.
Qed.

Lemma deliver_connections w text rid st ev :
  connections (calls (deliver w text rid st ev)) = connections (calls st).
Proof.
  destruct (deliver_cases w text rid st ev) as [[-> _]|[(-> & _)|(-> & _)]];
    rewrite ?handler_resume_connections; try done; apply listener_connections.
Qed.

Lemma deliver_owed_response w text rid st ev :
  sent st = owed_response w rid (promise st) ->
  sent (deliver w text rid st ev) = owed_response w rid (promise (deliver w text rid st ev)).
Proof.
  intros Hinv.
  destruct (deliver_cases w text rid st ev) as [[-> _]|[(-> & _ & Hl)|(-> & _ & _ & Hp')]].
  - done.
  - by rewrite listener_sent, Hl.
  - by rewrite handler_resume_sent, handler_resume_promise.
Qed.

Lemma deliver_fulfilled_has_fragment w text rid st ev :
  (forall url ts, promise st = Fulfilled url ts -> audioChunks st <> []) ->
  forall url ts, promise (deliver w text rid st ev) = Fulfilled url ts ->
                 audioChunks (deliver w text rid st ev) <> [].
Proof.
  intros Hinv url ts.
  destruct (deliver_cases w text rid st ev) as [[-> _]|[(-> & _ & Hl)|(-> & _ & Hp & _)]].
  - apply Hinv.
  - rewrite Hl, listener_audioChunks. intros Hf%Hinv Happ.
    by apply app_eq_nil in Happ as [? _].
  - rewrite handler_resume_promise, handler_resume_audioChunks, listener_audioChunks.
    intros (_ & Hne & _)%listener_fulfils Happ; [|done].
    by apply app_eq_nil in Happ as [? _].
Qed.

Lemma deliver_uploads_grow w text rid st ev cmd :
  cmd ∈ uploads (calls st) -> cmd ∈ uploads (calls (deliver w text rid st ev)).
Proof.
  intros Hin.
  destruct (deliver_cases w text rid st ev) as [[-> _]|[(-> & _)|(-> & _)]];
    rewrite ?handler_resume_uploads, ?listener_uploads; try done;
    apply elem_of_app; by left.
Qed.

Lemma deliver_fulfilled_uploaded w text rid st ev :
  (forall url ts, promise st = Fulfilled url ts ->
     url = session_url w rid
     /\ exists chunks, upload_command w rid chunks ∈ uploads (calls st)) ->
  forall url ts, promise (deliver w text rid st ev) = Fulfilled url ts ->
     url = session_url w rid
     /\ exists chunks, upload_command w rid chunks ∈ uploads (calls (deliver w text rid st ev)).
Proof.
  intros Hinv url ts Hf.
  destruct (deliver_cases w text rid st ev) as [[He _]|[(He & _ & Hl)|(He & _ & Hp & _)]].
  - rewrite He in *. by apply Hinv in Hf.
  - rewrite He, Hl in Hf. apply Hinv in Hf as [-> [chunks Hin]].
    split; [done|]. exists chunks. by apply deliver_uploads_grow.
  - rewrite He, handler_resume_promise in Hf.
    apply listener_fulfils in Hf as (-> & Hne & -> & _ & _); [|done].
    split; [done|]. exists (audioChunks st).
    rewrite He, handler_resume_uploads, listener_uploads.
    apply elem_of_app. right. destruct (audioChunks st); [done|]. apply list_elem_of_here.
Qed.

Lemma deliver_s3_objects w text rid st ev k :
  is_Some (s3_objects st !! k) -> is_Some (s3_objects (deliver w text rid st ev) !! k).
Proof.
  intros Hk.
  destruct (deliver_cases w text rid st ev) as [[-> _]|[(-> & _)|(-> & _)]];
    rewrite ?handler_resume_s3_objects; try done; by apply listener_s3_objects.
Qed.

(** *** Invariants of a session *)

Lemma run_promise_settled w text rid evs st :
  promise st <> Pending ->
  promise (run w text rid evs st) = promise st
  /\ sent (run w text rid evs st) = sent st
  /\ write_backs (calls (run w text rid evs st)) = write_backs (calls st).
Proof.
  intros Hp.
  apply (run_invariant
           (fun st' => promise st' = promise st /\ sent st' = sent st
                       /\ write_backs (calls st') = write_backs (calls st)));
    [|done].
  intros st' ev (Hp' & Hs & Hw).
  assert (promise st' <> Pending) by congruence.
  by rewrite deliver_promise_settled, deliver_sent_settled, deliver_write_backs_settled.
Qed.

Lemma run_connections w text rid evs st :
  connections (calls (run w text rid evs st)) = connections (calls st).
Proof.
  apply (run_invariant (fun st' => connections (calls st') = connections (calls st)));
    [|done].
  intros st' ev <-. apply deliver_connections.
Qed.

Lemma session_owed_response w text rid evs :
  sent (session w text rid evs) = owed_response w rid (promise (session w text rid evs)).
Proof.
  apply (run_invariant (fun st => sent st = owed_response w rid (promise st))); [|done].
  intros st ev. apply deliver_owed_response.
Qed.

Lemma session_fulfilled_has_fragment w text rid evs url ts :
  promise (session w text rid evs) = Fulfilled url ts ->
  audioChunks (session w text rid evs) <> [].
Proof.
  revert url ts.
  apply (run_invariant
           (fun st => forall url ts, promise st = Fulfilled url ts -> audioChunks st <> []));
    [|done].
  intros st ev. apply deliver_fulfilled_has_fragment.
Qed.

Lemma session_fulfilled_uploaded w text rid evs url ts :
  promise (session w text rid evs) = Fulfilled url ts ->
  url = session_url w rid
  /\ exists chunks, upload_command w rid chunks ∈ uploads (calls (session w text rid evs)).
Proof.
  revert url ts.
  apply (run_invariant
           (fun st => forall url ts, promise st = Fulfilled url ts ->
              url = session_url w rid
              /\ exists chunks, upload_command w rid chunks ∈ uploads (calls st)));
    [|done].
  intros st ev. apply deliver_fulfilled_uploaded.
Qed.

Lemma deliver_audioChunks_grow w text rid st ev :
  audioChunks (deliver w text rid st ev) = [] -> audioChunks st = [].
Proof.
  destruct (deliver_cases w text rid st ev) as [[-> _]|[(-> & _)|(-> & _)]];
    rewrite ?handler_resume_audioChunks, ?listener_audioChunks; try done;
    by intros [? _]%app_eq_nil.
Qed.

(** Nothing is uploaded while the fragment list is empty. *)
Lemma deliver_no_upload_without_fragment w text rid st ev :
  (audioChunks st = [] -> uploads (calls st) = []) ->
  audioChunks (deliver w text rid st ev) = [] ->
  uploads (calls (deliver w text rid st ev)) = [].
Proof.
  intros Hinv Hnil. pose proof (deliver_audioChunks_grow _ _ _ _ _ Hnil) as Hst.
  destruct (deliver_cases w text rid st ev) as [[-> _]|[(-> & _)|(-> & _)]];
    rewrite ?handler_resume_uploads, ?listener_uploads, Hinv, ?Hst by done;
    try done; by destruct ev.
Qed.

Lemma session_no_upload_without_fragment w text rid evs :
  audioChunks (session w text rid evs) = [] -> uploads (calls (session w text rid evs)) = [].
Proof.
  apply (run_invariant (fun st => audioChunks st = [] -> uploads (calls st) = [])); [|done].
  intros st ev. apply deliver_no_upload_without_fragment.
Qed.

(** The write-back is requested exactly when the session promise is
    fulfilled, once, with the address and the timing list it resolved with. *)
Lemma deliver_write_backs w text rid st ev :
  write_backs (calls st)
  = match promise st with Fulfilled url ts => [(rid, UpdateFields url ts)] | _ => [] end ->
  write_backs (calls (deliver w text rid st ev))
  = match promise (deliver w text rid st ev) with
    | Fulfilled url ts => [(rid, UpdateFields url ts)]
    | _ => []
    end.
Proof.
  intros Hinv.
  destruct (deliver_cases w text rid st ev) as [[-> _]|[(-> & _ & Hl)|(-> & _ & Hp & _)]].
  - done.
  - by rewrite listener_write_backs, Hl.
  - rewrite handler_resume_write_backs, handler_resume_promise, listener_write_backs, Hinv, Hp.
    done.
Qed.

Lemma session_write_backs w text rid evs :
  write_backs (calls (session w text rid evs))
  = match promise (session w text rid evs) with
    | Fulfilled url ts => [(rid, UpdateFields url ts)]
    | _ => []
    end.
Proof.
  apply (run_invariant
           (fun st => write_backs (calls st)
                      = match promise st with
                        | Fulfilled url ts => [(rid, UpdateFields url ts)]
                        | _ => []
                        end)); [|done].
  intros st ev. apply deliver_write_backs.
Qed.

Lemma session_connections w text rid evs :
  connections (calls (session w text rid evs)) = [socketUrl w].
Proof. unfold session. by rewrite run_connections. Qed.

(** *** [handler] up to the session *)

Lemma handler_session w b rid s record scriptText :
  get_prop b "recordId" = Normal (Some rid) ->
  truthy (Some rid) = true ->
  ToString rid = Normal s ->
  airtable_find w rid = Normal record ->
  record !! "Script" = Some scriptText ->
  truthy (Some scriptText) = true ->
  handler w (post b) = session w scriptText rid (ws_events w).
Proof.
  intros Hrid Ht Hs Hfind Hscript Hts. unfold handler, post. cbn [method req_body].
  destruct b; try done; rewrite Hrid, Ht; cbn [negb];
    by rewrite Hs, Hfind, Hscript, Hts.
Qed.

(** A record id that has been converted keeps its text. *)
Lemma converted_ToString rid s : ToString rid = Normal s -> converted rid = s.
Proof. unfold converted. by intros ->. Qed.

(** * The claims *)

Lemma deliver_message_rejected w text rid m st :
  uncaught st = None ->
  accepted m = false ->
  exists e, deliver w text rid st (EvMessage m) = escape e st.
Proof.
  intros Hu Hacc. destruct (on_message_rejected m st Hacc) as [e He].
  exists e. unfold deliver, is_pending. rewrite Hu. simpl. rewrite He. simpl.
  by destruct (promise st).
Qed.

(** A session that is fulfilled when it closes has processed every frame. *)
Lemma run_fulfilled_accepted w text rid ms st url ts :
  uncaught st = None -> promise st = Pending ->
  promise (run w text rid ((EvMessage <$> ms) ++ [EvClose]) st) = Fulfilled url ts ->
  Forall (fun m => accepted m = true) ms.
Proof.
  revert st. induction ms as [|m ms IH]; intros st Hu Hp Hf; [by constructor|].
  rewrite fmap_cons, <- app_comm_cons, run_cons in Hf.
  destruct (accepted m) eqn:Hacc.
  - constructor; [done|].
    rewrite deliver_message_accepted in Hf by done. by eapply IH in Hf.
  - destruct (deliver_message_rejected w text rid m st Hu Hacc) as [e He].
    rewrite He, (run_crashed _ _ _ _ _ e) in Hf by done.
    simpl in Hf. congruence.
Qed.

(** Frames that parse to an object whose [audio] field, when truthy, is a
    string are processed. *)
Lemma accepted_string_audio fields :
  (forall a, fields !! "audio" = Some a -> truthy (Some a) = true -> exists s, a = JString s) ->
  accepted (Parsed (JObject fields)) = true.
Proof.
  intros Ha. unfold_listener. simpl.
  destruct (fields !! "audio") as [a|] eqn:Haudio; simpl.
  - destruct (truthy (Some a)) eqn:Ht.
    + destruct (Ha a eq_refl Ht) as [s ->]. simpl.
      destruct (fields !! "alignment") as [al|]; [|done]. by destruct (truthy (Some al)).
    + destruct (fields !! "alignment") as [al|]; [|done]. by destruct (truthy (Some al)).
  - destruct (fields !! "alignment") as [al|]; [|done]. by destruct (truthy (Some al)).
Qed.

(** C1. A session that is fulfilled has processed every frame it received.
    For every sequence of frames the message listener processes, the session
    accumulates exactly the decoded audio fragments of the frames, in arrival
    order, and exactly their alignment payloads, in arrival order and
    unchanged.  When at least one fragment arrived, the body handed to the
    storage is the concatenation of the fragments, and when the upload
    succeeds the session resolves with the timing list, which is also what is
    written back.  A frame with neither payload leaves the state as it was. *)
Theorem session_assembles_in_arrival_order w text rid ms :
  let st := session w text rid (EvOpen :: (EvMessage <$> ms) ++ [EvClose]) in
  (forall url ts, promise st = Fulfilled url ts -> Forall (fun m => accepted m = true) ms)
  /\ (Forall (fun m => accepted m = true) ms ->
      audioChunks st = omap audio_fragment ms
      /\ timestamps st = omap alignment_payload ms
      /\ (omap audio_fragment ms <> [] ->
          Body <$> uploads (calls st) = [concat (omap audio_fragment ms)]
          /\ (s3_send w (upload_command w rid (omap audio_fragment ms)) = Normal () ->
              promise st = Fulfilled (session_url w rid) (omap alignment_payload ms)
              /\ s3_objects st !! fileName rid (Date_now w)
                 = Some (concat (omap audio_fragment ms), "audio/mpeg"%string)
              /\ write_backs (calls st)
                 = [(rid, UpdateFields (session_url w rid) (omap alignment_payload ms))])))
  /\ (forall m st0,
        accepted m = true -> audio_payload m = None -> alignment_payload m = None ->
        on_message m st0 = Normal st0).
Proof.
  intros st. split; [|split].
  - intros url ts. subst st. unfold session. rewrite run_cons, deliver_open by done.
    by apply run_fulfilled_accepted.
  - intros Hall. subst st.
    rewrite app_comm_cons, session_closing, session_streaming by done.
    set (st := State _ _ _ _ _ _ _).
    assert (Hu : uncaught st = None) by done.
    assert (Hp : promise st = Pending) by done.
    destruct (decide (omap audio_fragment ms = [])) as [Hnil|Hne].
    + by rewrite (close_without_chunks w text rid st Hu Hp Hnil).
    + destruct (s3_send w (upload_command w rid (omap audio_fragment ms))) as [[]|e] eqn:Hs3.
      * rewrite (close_upload_succeeds w text rid st Hu Hp Hne Hs3). simpl.
        split_and!; try done. intros _. split; [done|]. intros _.
        split_and!; try done. by rewrite lookup_insert_eq.
      * rewrite (close_upload_fails w text rid st e Hu Hp Hne Hs3). simpl.
        split_and!; try done.
  - intros m st0. apply on_message_unrecognized.
Qed.

(** C2 (amended). A session that closes after frames none of which holds an
    audio fragment is rejected with the empty-audio error and [handler]
    answers 500, whatever alignment payloads and other frames it received;
    the check comes before any concatenation or call to the storage, so
    nothing is uploaded.  More generally this is what the close does to any
    pending session whose fragment list is empty.  The check counts
    fragments: a fulfilled session holds at least one audio fragment. *)
Theorem close_without_fragments_rejects w text rid :
  (forall ms,
     Forall (fun m => accepted m = true) ms ->
     omap audio_fragment ms = [] ->
     let st := session w text rid (EvOpen :: (EvMessage <$> ms) ++ [EvClose]) in
     promise st = Rejected EmptyAudioError
     /\ sent st = Some (internal_error EmptyAudioError)
     /\ timestamps st = omap alignment_payload ms
     /\ uploads (calls st) = []
     /\ s3_objects st = ∅)
  /\ (forall evs,
        let st := session w text rid evs in
        let st' := session w text rid (evs ++ [EvClose]) in
        uncaught st = None -> promise st = Pending -> audioChunks st = [] ->
        promise st' = Rejected EmptyAudioError
        /\ sent st' = Some (internal_error EmptyAudioError)
        /\ timestamps st' = timestamps st
        /\ calls st' = calls st
        /\ s3_objects st' = s3_objects st)
  /\ (forall evs url ts,
        promise (session w text rid evs) = Fulfilled url ts ->
        audioChunks (session w text rid evs) <> []).
Proof.
  split_and!.
  - intros ms Hall Hnil st. subst st.
    rewrite app_comm_cons, session_closing, session_streaming by done.
    rewrite close_without_chunks by done. by rewrite Hnil.
  - intros evs st st' Hu Hp Hc. subst st'. rewrite session_closing.
    fold st. by rewrite (close_without_chunks w text rid st Hu Hp Hc).
  - intros evs url ts. apply session_fulfilled_has_fragment.
Qed.

(** C3 (amended). A frame that fails to parse makes the message listener
    throw the parse error; nothing in the module catches it, and the frame
    adds nothing to the fragment list, to the timing list, or to anything
    else the session holds.  The session ends there: the promise is left as
    it was and no later event is handled. *)
Theorem malformed_frame_escapes_listener w text rid e st :
  on_message (Malformed e) st = Throw e
  /\ listener w text rid (EvMessage (Malformed e)) st = escape e st
  /\ audioChunks (escape e st) = audioChunks st
  /\ timestamps (escape e st) = timestamps st
  /\ promise (escape e st) = promise st
  /\ calls (escape e st) = calls st
  /\ sent (escape e st) = sent st
  /\ uncaught (escape e st) = Some e
  /\ (uncaught st = None ->
      forall evs, run w text rid (EvMessage (Malformed e) :: evs) st = escape e st).
Proof.
  repeat split; try done.
  intros Hu evs. rewrite run_cons.
  assert (Hd : deliver w text rid st (EvMessage (Malformed e)) = escape e st).
  { unfold deliver, is_pending. rewrite Hu. simpl. by destruct (promise st). }
  rewrite Hd. by apply run_crashed with e.
Qed.

(** C5 (amended). A frame the listener processes adds its audio fragment to
    the fragment list when its [audio] field is truthy and, independently,
    its alignment payload to the timing list when its [alignment] field is
    truthy: at most one element to each list, and one to both when the frame
    carries both fields. *)
Theorem frame_contributes_to_each_list m st st' :
  on_message m st = Normal st' ->
  audioChunks st' = audioChunks st ++ option_list (audio_fragment m)
  /\ timestamps st' = timestamps st ++ option_list (alignment_payload m)
  /\ length (option_list (audio_fragment m)) <= 1
  /\ length (option_list (alignment_payload m)) <= 1
  /\ (truthy (field m "audio") = true -> is_Some (audio_fragment m))
  /\ (truthy (field m "alignment") = true -> is_Some (alignment_payload m)).
Proof.
  intros Hm. pose proof (on_message_Normal_accepted _ _ _ Hm) as Hacc.
  rewrite on_message_accepted in Hm by done. injection Hm as <-. simpl.
  repeat split; try done.
  - destruct (audio_fragment m); simpl; lia.
  - destruct (alignment_payload m); simpl; lia.
  - unfold_listener. destruct m as [e|[]]; simpl in *; try done.
    intros Ht. rewrite Ht in *. repeat (case_match; simplify_eq; simpl in *; try done).
  - unfold alignment_payload. intros Ht. rewrite Ht.
    by destruct (field m "alignment").
Qed.

(** *** Strings *)

Lemma string_length_app (s t : string) :
  String.length (s +:+ t) = String.length s + String.length t.
Proof. induction s as [|c s IH]; simpl; [done|]. by rewrite IH. Qed.

Lemma string_app_inj_r (t s1 s2 : string) : s1 +:+ t = s2 +:+ t -> s1 = s2.
Proof.
  revert s2. induction s1 as [|c s1 IH]; intros [|c' s2] Heq; simpl in *.
  - done.
  - apply (f_equal String.length) in Heq.
    rewrite !string_length_app in Heq. simpl in Heq. lia.
  - apply (f_equal String.length) in Heq.
    rewrite !string_length_app in Heq. simpl in Heq. lia.
  - injection Heq as -> Heq. f_equal. by apply IH.
Qed.

Lemma fileName_inj rid (t1 t2 : Z) : fileName rid t1 = fileName rid t2 -> t1 = t2.
Proof.
  unfold fileName. intros Heq.
  do 3 apply String.app_inj in Heq.
  apply string_app_inj_r in Heq. by apply (inj pretty) in Heq.
Qed.

(** *** The transport error, the close and the write-back *)

Lemma deliver_error w text rid st e :
  uncaught st = None -> promise st = Pending ->
  promise (deliver w text rid st (EvError e)) = Rejected e.
Proof.
  intros Hu Hp.
  assert (Hl : promise (listener w text rid (EvError e) st) = Rejected e).
  { simpl. unfold on_error, reject. by rewrite settle_promise, Hp. }
  rewrite deliver_settles, handler_resume_promise; by rewrite ?Hl.
Qed.

(** Every upload of a session is the upload command of its fragment list at
    some moment. *)
Lemma deliver_uploads_shape w text rid st ev :
  (forall cmd, cmd ∈ uploads (calls st) -> exists chunks, cmd = upload_command w rid chunks) ->
  forall cmd, cmd ∈ uploads (calls (deliver w text rid st ev)) ->
              exists chunks, cmd = upload_command w rid chunks.
Proof.
  intros Hinv cmd.
  destruct (deliver_cases w text rid st ev) as [[-> _]|[(-> & _)|(-> & _)]];
    rewrite ?handler_resume_uploads, ?listener_uploads; try apply Hinv;
    (intros [Hin|Hin]%elem_of_app; [by apply Hinv|]);
    destruct ev; try (by apply elem_of_nil in Hin);
    destruct (audioChunks st) eqn:Hc; try (by apply elem_of_nil in Hin);
    apply list_elem_of_singleton in Hin; eauto.
Qed.

Lemma session_uploads_shape w text rid evs cmd :
  cmd ∈ uploads (calls (session w text rid evs)) ->
  exists chunks, cmd = upload_command w rid chunks.
Proof.
  revert cmd.
  apply (run_invariant
           (fun st => forall cmd, cmd ∈ uploads (calls st) ->
                                  exists chunks, cmd = upload_command w rid chunks)).
  - intros st ev. apply deliver_uploads_shape.
  - intros cmd Hin. by apply elem_of_nil in Hin.
Qed.

Ltac outside_session :=
  let r := fresh "r" in
  let Hr := fresh "Hr" in
  let Hs := fresh "Hs" in
  simpl; intros [(r & Hr & Hs)|[?|?]]; [by simplify_eq/=|done..].

(** A request that is answered 200, or for which something is uploaded, or
    whose session promise is settled, went through the session. *)
Lemma handler_reaches_session w req :
  (exists r, sent (handler w req) = Some r /\ status r = 200%Z)
  \/ uploads (calls (handler w req)) <> []
  \/ promise (handler w req) <> Pending ->
  exists b rid record scriptText,
    req = post b
    /\ get_prop b "recordId" = Normal (Some rid)
    /\ truthy (Some rid) = true
    /\ airtable_find w rid = Normal record
    /\ record !! "Script" = Some scriptText
    /\ truthy (Some scriptText) = true
    /\ handler w req = session w scriptText rid (ws_events w).
Proof.
  destruct req as [meth [b|]]; unfold handler, post; cbn [method req_body].
  - destruct (String.eqb_spec meth "POST") as [->|Hne]; cbn [negb].
    2:{ outside_session. }
    destruct b as [|bb|x|s|items|fields];
      try (outside_session).
    cbn [get_prop].
    destruct (fields !! "recordId") as [rid|] eqn:Hrid;
      [|outside_session].
    destruct (truthy (Some rid)) eqn:Ht; cbn [negb];
      [|outside_session].
    destruct (ToString rid) as [s|e] eqn:Hs;
      [|outside_session].
    destruct (airtable_find w rid) as [record|e] eqn:Hfind;
      [|outside_session].
    destruct (record !! "Script") as [scriptText|] eqn:Hscript;
      [|outside_session].
    destruct (truthy (Some scriptText)) eqn:Hts; cbn [negb];
      [|outside_session].
    intros _. exists (JObject fields), rid, record, scriptText.
    cbn [get_prop]. by rewrite Hrid.
  - destruct (String.eqb_spec meth "POST") as [->|Hne]; cbn [negb];
      outside_session.
Qed.

(** [handler] calls a collaborator only for a record id that it has
    converted to text. *)
Lemma handler_converts w req :
  calls (handler w req) <> [] ->
  exists b rid s,
    req = post b
    /\ get_prop b "recordId" = Normal (Some rid)
    /\ truthy (Some rid) = true
    /\ ToString rid = Normal s.
Proof.
  destruct req as [meth [b|]]; unfold handler, post; cbn [method req_body].
  - destruct (String.eqb_spec meth "POST") as [->|Hne]; cbn [negb]; [|done].
    destruct b as [|bb|x|s|items|fields]; try done.
    cbn [get_prop].
    destruct (fields !! "recordId") as [rid|] eqn:Hrid; [|done].
    destruct (truthy (Some rid)) eqn:Ht; cbn [negb]; [|done].
    destruct (ToString rid) as [s|e] eqn:Hs; [|done].
    intros _. exists (JObject fields), rid, s. cbn [get_prop]. by rewrite Hrid.
  - by destruct (String.eqb_spec meth "POST") as [->|Hne]; cbn [negb].
Qed.

(** C4 (amended). When a transport error arrives on a session whose promise
    is still pending, the promise is rejected with that error at once and
    stays so whatever follows; [handler] answers 500 with the error's message;
    the module opens one connection and no other; the record store is not
    written.  Nothing is uploaded as long as the session holds no audio
    fragment. *)
Theorem transport_error_rejects_session w text rid pre e post :
  let st := session w text rid pre in
  let st' := session w text rid (pre ++ EvError e :: post) in
  uncaught st = None -> promise st = Pending ->
  promise (session w text rid (pre ++ [EvError e])) = Rejected e
  /\ promise st' = Rejected e
  /\ sent st'
     = Some (Response 500
               (JObject {[ "message" := JString "An internal error occurred.";
                           "error" := JString (error_message e) ]}))
  /\ connections (calls st') = [socketUrl w]
  /\ write_backs (calls st') = []
  /\ (audioChunks st' = [] -> uploads (calls st') = []).
Proof.
  intros st st' Hu Hp.
  assert (Hnow : promise (session w text rid (pre ++ [EvError e])) = Rejected e).
  { unfold session. rewrite run_app. simpl. by apply deliver_error. }
  assert (Hp' : promise st' = Rejected e).
  { subst st'. unfold session in *. rewrite run_app, run_cons.
    rewrite run_app in Hnow. simpl in Hnow.
    destruct (run_promise_settled w text rid post
                (deliver w text rid (run w text rid pre (session_start w rid)) (EvError e)))
      as [-> _]; by rewrite Hnow. }
  repeat split; try done.
  - subst st'. by rewrite session_owed_response, Hp'.
  - apply session_connections.
  - subst st'. by rewrite session_write_backs, Hp'.
  - apply session_no_upload_without_fragment.
Qed.


(** C8 (amended). A request answered 200 uploaded an object whose key is
    [audio/], the text of the record id, a dash, the clock reading in
    milliseconds and [.mp3], with content type [audio/mpeg], and the address
    it reports is [https://], the bucket name, [.s3.], the region,
    [.amazonaws.com/] and that key (a name that is not set reads
    [undefined]).  Two runs of [handler] on the same request upload under
    different keys exactly when their clock readings differ: runs that read
    the same millisecond upload under the same key. *)
Theorem storage_key_from_record_and_clock :
  (forall w req r,
     sent (handler w req) = Some r -> status r = 200%Z ->
     exists b rid s chunks,
       req_body req = Some b
       /\ get_prop b "recordId" = Normal (Some rid)
       /\ ToString rid = Normal s
       /\ PutObjectCommand (env w !! "AWS_S3_BUCKET_NAME")
            ("audio/" +:+ s +:+ "-" +:+ pretty (Date_now w) +:+ ".mp3")
            (concat chunks) "audio/mpeg"
          ∈ uploads (calls (handler w req))
       /\ get_prop (body r) "audioUrl"
          = Normal (Some (JString
              ("https://" +:+ default "undefined"%string (env w !! "AWS_S3_BUCKET_NAME")
               +:+ ".s3." +:+ default "undefined"%string (env w !! "AWS_S3_REGION")
               +:+ ".amazonaws.com/"
               +:+ "audio/" +:+ s +:+ "-" +:+ pretty (Date_now w) +:+ ".mp3"))))
  /\ (forall w1 w2 req cmd1 cmd2,
        cmd1 ∈ uploads (calls (handler w1 req)) ->
        cmd2 ∈ uploads (calls (handler w2 req)) ->
        (Key cmd1 = Key cmd2 <-> Date_now w1 = Date_now w2)
        /\ (Key cmd1 <> Key cmd2 <-> Date_now w1 <> Date_now w2)).
Proof.
  split.
  - intros w req r Hsent Hstatus.
    destruct (handler_reaches_session w req)
      as (b0 & rid & record & text & -> & Hrid & _ & _ & _ & _ & Heq).
    { left. eauto. }
    destruct (handler_converts w (post b0)) as (b' & rid' & s & [= <-] & Hrid' & _ & Hs).
    { rewrite Heq. intros Hnil.
      pose proof (session_connections w text rid (ws_events w)) as Hc.
      by rewrite Hnil in Hc. }
    assert (rid' = rid) as -> by congruence.
    rewrite Heq in *. rewrite session_owed_response in Hsent.
    destruct (promise (session w text rid (ws_events w))) as [|url ts|e] eqn:Hp;
      simpl in Hsent; [done| |by simplify_eq/=].
    apply session_fulfilled_uploaded in Hp as [-> [chunks Hin]].
    exists b0, rid, s, chunks.
    unfold upload_command, session_url, audioUrl_of, fileName in *.
    rewrite (converted_ToString rid s Hs) in *.
    split_and!; try done.
    destruct (airtable_update w rid _); simplify_eq/=.
    by destruct (env w !! "AWS_S3_BUCKET_NAME"), (env w !! "AWS_S3_REGION").
  - intros w1 w2 req cmd1 cmd2 Hin1 Hin2.
    destruct (handler_reaches_session w1 req)
      as (b1 & rid1 & ? & text1 & -> & Hrid1 & _ & _ & _ & _ & Heq1).
    { right; left. intros Hnil. rewrite Hnil in Hin1. by apply elem_of_nil in Hin1. }
    destruct (handler_reaches_session w2 (post b1))
      as (b2 & rid2 & ? & text2 & [= <-] & Hrid2 & _ & _ & _ & _ & Heq2).
    { right; left. intros Hnil. rewrite Hnil in Hin2. by apply elem_of_nil in Hin2. }
    rewrite Heq1 in Hin1. rewrite Heq2 in Hin2.
    apply session_uploads_shape in Hin1 as [chunks1 ->].
    apply session_uploads_shape in Hin2 as [chunks2 ->].
    assert (rid2 = rid1) as -> by congruence.
    assert (Hiff : Key (upload_command w1 rid1 chunks1) = Key (upload_command w2 rid1 chunks2)
                   <-> Date_now w1 = Date_now w2).
    { simpl. split; [apply fileName_inj | by intros ->]. }
    split; [exact Hiff|]. by rewrite Hiff.
Qed.

(** C9 (amended). A request whose method is not POST is answered 405 and no
    collaborator is called.  A POST request whose body is there and has no
    [recordId], or a falsy one, is answered 400 and no collaborator is
    called.  Every failure raised inside the [try] block, which [handler]
    enters once it has converted the record id to text for its log line (the
    record cannot be fetched, the script is missing or empty, the session
    promise is rejected, the write-back fails), is answered 500 with the one
    generic message and the error's own message. *)
Theorem handler_status_mapping w req :
  (method req <> "POST"%string ->
   sent (handler w req)
   = Some (Response 405 (JObject {[ "message" := JString "Method Not Allowed. Use POST." ]}))
   /\ calls (handler w req) = [])
  /\ (forall b v,
        req = post b -> get_prop b "recordId" = Normal v -> truthy v = false ->
        sent (handler w req)
        = Some (Response 400 (JObject {[ "message" := JString "Missing required field: recordId" ]}))
        /\ calls (handler w req) = [])
  /\ (forall b rid s,
        req = post b -> get_prop b "recordId" = Normal (Some rid) ->
        truthy (Some rid) = true -> ToString rid = Normal s ->
        (forall e, airtable_find w rid = Throw e ->
                   sent (handler w req) = Some (internal_error e))
        /\ (forall record,
              airtable_find w rid = Normal record -> truthy (record !! "Script") = false ->
              sent (handler w req)
              = Some (internal_error
                        (Error "Script field is empty or not found in Airtable record.")))
        /\ (forall e, promise (handler w req) = Rejected e ->
                      sent (handler w req) = Some (internal_error e))
        /\ (forall url ts e,
              promise (handler w req) = Fulfilled url ts ->
              airtable_update w rid (UpdateFields url ts) = Throw e ->
              sent (handler w req) = Some (internal_error e)))
  /\ (forall e,
        status (internal_error e) = 500%Z
        /\ get_prop (body (internal_error e)) "message"
           = Normal (Some (JString "An internal error occurred."))
        /\ get_prop (body (internal_error e)) "error"
           = Normal (Some (JString (error_message e)))).
Proof.
  split; [|split; [|split]].
  - intros Hm. unfold handler.
    by destruct (String.eqb_spec (method req) "POST").
  - intros b v -> Hv Ht. unfold handler, post. cbn [method req_body negb String.eqb Ascii.eqb].
    simpl String.eqb. cbn [negb].
    destruct b as [|bb|x|s|items|fields]; simpl in Hv; simplify_eq; try done.
    cbn [get_prop]. destruct (fields !! "recordId") as [rid|]; [|done].
    by rewrite Ht.
  - intros b rid s -> Hrid Ht Hs. repeat split.
    + intros e Hfind. unfold handler, post. simpl String.eqb. cbn [method req_body negb].
      destruct b; simplify_eq/=; rewrite ?Hrid, ?Ht; cbn [negb]; by rewrite ?Hs, ?Hfind.
    + intros record Hfind Hscript. unfold handler, post. simpl String.eqb.
      cbn [method req_body negb].
      destruct b; simplify_eq/=; rewrite ?Hrid, ?Ht; cbn [negb]; rewrite ?Hs, ?Hfind;
        destruct (record !! "Script"); simpl in Hscript; by rewrite ?Hscript.
    + intros e Hp.
      destruct (handler_reaches_session w (post b))
        as (b' & rid' & record & text & [= <-] & Hrid' & _ & _ & _ & _ & Heq).
      { right; right. by rewrite Hp. }
      rewrite Heq in *. by rewrite session_owed_response, Hp.
    + intros url ts e Hp Hup.
      destruct (handler_reaches_session w (post b))
        as (b' & rid' & record & text & [= <-] & Hrid' & _ & _ & _ & _ & Heq).
      { right; right. by rewrite Hp. }
      assert (rid' = rid) as -> by congruence.
      rewrite Heq in *. rewrite session_owed_response, Hp. simpl. by rewrite Hup.
  - done.
Qed.

(** C10. A frame whose [audio] field is the empty string is processed and
    adds nothing to the fragment list.  A session every frame of which has no
    [audio] field or the empty string in it, once closed, is rejected with the
    empty-audio error: [handler] answers 500 and nothing is uploaded. *)
Theorem empty_audio_string_is_no_fragment :
  (forall fields st,
     fields !! "audio" = Some (JString "") ->
     exists st', on_message (Parsed (JObject fields)) st = Normal st'
                 /\ audioChunks st' = audioChunks st)
  /\ (forall w text rid ms,
        Forall (fun m => exists fields,
                    m = Parsed (JObject fields)
                    /\ (fields !! "audio" = None \/ fields !! "audio" = Some (JString "")))
               ms ->
        let st := session w text rid (EvOpen :: (EvMessage <$> ms) ++ [EvClose]) in
        audioChunks st = []
        /\ promise st = Rejected EmptyAudioError
        /\ sent st = Some (internal_error EmptyAudioError)
        /\ uploads (calls st) = []
        /\ s3_objects st = ∅).
Proof.
  assert (Hframe : forall fields,
             fields !! "audio" = None \/ fields !! "audio" = Some (JString "") ->
             accepted (Parsed (JObject fields)) = true
             /\ audio_fragment (Parsed (JObject fields)) = None).
  { intros fields Ha. unfold_listener. simpl.
    destruct Ha as [-> | ->]; simpl; split; try done;
      destruct (fields !! "alignment") as [al|]; try done;
      by destruct (truthy (Some al)). }
  split.
  - intros fields st Ha. destruct (Hframe fields) as [Hacc Hfrag]; [by right|].
    eexists. rewrite on_message_accepted by done. split; [done|].
    simpl. by rewrite Hfrag, app_nil_r.
  - intros w text rid ms Hall st.
    assert (Hacc : Forall (fun m => accepted m = true) ms).
    { eapply Forall_impl; [done|]. intros m (fields & -> & Ha). by apply Hframe. }
    assert (Hnone : omap audio_fragment ms = []).
    { clear Hacc st. induction Hall as [|m ms (fields & -> & Ha) _ IH]; [done|].
      rewrite omap_cons_option_list, IH. by destruct (Hframe fields Ha) as [_ ->]. }
    subst st. rewrite app_comm_cons, session_closing, session_streaming by done.
    rewrite close_without_chunks by done. by rewrite Hnone.
Qed.

(** * Further properties of the session *)

Lemma listener_promise_quiet w text rid ev st :
  (forall e, ev <> EvError e) -> ev <> EvClose ->
  promise (listener w text rid ev st) = promise st.
Proof.
  intros Herr Hclose. listener_cases st ev; try done. by destruct (Herr e).
Qed.

Lemma deliver_quiet w text rid ev st :
  (forall e, ev <> EvError e) -> ev <> EvClose ->
  promise (deliver w text rid st ev) = promise st
  /\ sent (deliver w text rid st ev) = sent st
  /\ uploads (calls (deliver w text rid st ev)) = uploads (calls st)
  /\ write_backs (calls (deliver w text rid st ev)) = write_backs (calls st).
Proof.
  intros Herr Hclose.
  pose proof (listener_promise_quiet w text rid ev st Herr Hclose) as Hq.
  destruct (deliver_cases w text rid st ev) as [[-> _]|[(-> & _ & Hl)|(_ & _ & Hp & Hp')]].
  - done.
  - rewrite listener_sent, listener_uploads, listener_write_backs.
    split_and!; try done. destruct ev; by rewrite ?app_nil_r.
  - by rewrite Hq in Hp'.
Qed.

(** X1. Once the session promise is settled, no later event changes it, nor
    the response [handler] gave, nor what was written back: a late error, a
    late frame or a second close cannot turn a failure into a success or the
    other way round. *)
Theorem settled_session_is_final w text rid pre post :
  promise (session w text rid pre) <> Pending ->
  promise (session w text rid (pre ++ post)) = promise (session w text rid pre)
  /\ sent (session w text rid (pre ++ post)) = sent (session w text rid pre)
  /\ write_backs (calls (session w text rid (pre ++ post)))
     = write_backs (calls (session w text rid pre)).
Proof.
  intros Hp. unfold session in *. rewrite run_app. by apply run_promise_settled.
Qed.

(** X2. Whatever the socket does, the response of [handler] is the one the
    session promise calls for: none while the promise is pending, and once
    it is settled either 200 or 500, never another status. *)
Theorem answered_exactly_when_settled w text rid evs :
  let st := session w text rid evs in
  sent st = owed_response w rid (promise st)
  /\ (sent st = None <-> promise st = Pending)
  /\ (forall r, sent st = Some r -> status r = 200%Z \/ status r = 500%Z).
Proof.
  intros st. subst st. rewrite session_owed_response.
  destruct (promise (session w text rid evs)) as [|url ts|e]; simpl.
  - split_and!; done.
  - destruct (airtable_update w rid _); split_and!; try done;
      try (intros r [= <-]; simpl; by eauto).
  - split_and!; try done. intros r [= <-]. by right.
Qed.

(** X3. The module has no timeout: on a request that reached the session,
    as long as the socket neither reports an error nor closes, the promise
    stays pending, [handler] gives no response, nothing is uploaded and
    nothing is written back, however many frames arrive. *)
Theorem no_response_before_error_or_close w b rid record scriptText :
  get_prop b "recordId" = Normal (Some rid) ->
  truthy (Some rid) = true ->
  airtable_find w rid = Normal record ->
  record !! "Script" = Some scriptText ->
  truthy (Some scriptText) = true ->
  (forall e, EvError e ∉ ws_events w) ->
  EvClose ∉ ws_events w ->
  let st := handler w (post b) in
  promise st = Pending
  /\ sent st = None
  /\ uploads (calls st) = []
  /\ write_backs (calls st) = [].
Proof.
  intros Hrid Ht Hfind Hscript Hts Herr Hclose st. subst st.
  destruct (ToString rid) as [s|e] eqn:Hs.
  2:{ unfold handler, post. simpl String.eqb. cbn [method req_body negb].
      destruct b; simplify_eq/=. by rewrite Hrid, Ht, Hs. }
  rewrite (handler_session w b rid s record scriptText) by done.
  unfold session. revert Herr Hclose.
  generalize (ws_events w). intros evs.
  induction evs as [|ev evs IH] using rev_ind; intros Herr Hclose; [done|].
  rewrite run_app. simpl.
  assert (Hev1 : forall e, ev <> EvError e).
  { intros e ->. apply (Herr e), elem_of_app. right. apply list_elem_of_here. }
  assert (Hev2 : ev <> EvClose).
  { intros ->. apply Hclose, elem_of_app. right. apply list_elem_of_here. }
  destruct (deliver_quiet w scriptText rid ev
              (run w scriptText rid evs (session_start w rid)) Hev1 Hev2)
    as (-> & -> & -> & ->).
  apply IH.
  - intros e Hin. apply (Herr e), elem_of_app. by left.
  - intros Hin. apply Hclose, elem_of_app. by left.
Qed.

(** X4. Over any sequence of socket events the record store is written at
    most once: exactly when the session promise is fulfilled, and then with
    the address and the timing list the promise was fulfilled with. *)
Theorem write_back_exactly_when_fulfilled w text rid evs :
  let st := session w text rid evs in
  (forall url ts, promise st = Fulfilled url ts ->
                  write_backs (calls st) = [(rid, UpdateFields url ts)])
  /\ ((forall url ts, promise st <> Fulfilled url ts) -> write_backs (calls st) = [])
  /\ length (write_backs (calls st)) <= 1.
Proof.
  intros st. subst st. rewrite session_write_backs.
  destruct (promise (session w text rid evs)) as [|url ts|e]; split_and!; simpl;
    try done; try lia.
  - by intros url' ts' [= <- <-].
  - intros Hne. by destruct (Hne url ts).
Qed.

(** X5. The message listener throws on exactly three kinds of frame: one
    that does not parse, one that parses to [null], and one whose truthy
    [audio] field [Buffer.from] refuses; whether it throws does not depend on
    the [alignment] field nor on the state.  In particular a frame that
    parses to an object whose [audio] is absent, falsy or a string is always
    processed. *)
Theorem listener_throws_exactly m :
  (accepted m = false <->
   (exists e, m = Malformed e)
   \/ m = Parsed JNull
   \/ (exists a e, field m "audio" = Some a /\ truthy (Some a) = true
                   /\ Buffer_from a = Throw e))
  /\ (forall st, accepted m = false <-> exists e, on_message m st = Throw e)
  /\ (forall fields s,
        m = Parsed (JObject fields) ->
        fields !! "audio" = None \/ truthy (fields !! "audio") = false
        \/ fields !! "audio" = Some (JString s) ->
        accepted m = true).
Proof.
  split_and!.
  - split.
    + intros Hacc. destruct m as [e|d]; [left; eauto|]. right.
      destruct d as [|bb|x|s|items|fields]; try done; [by left|]. right.
      unfold_listener. simpl in *.
      destruct (fields !! "audio") as [a|] eqn:Ha; simpl in *.
      * destruct (truthy (Some a)) eqn:Ht.
        -- exists a. destruct a; simpl in *; try (eexists; split_and!; done);
             try (destruct (Buffer_from_object _) eqn:Hb; [|eexists; split_and!; done]);
             simpl in *;
             destruct (fields !! "alignment") as [al|]; try done;
             by destruct (truthy (Some al)).
        -- destruct (fields !! "alignment") as [al|]; try done.
           by destruct (truthy (Some al)).
      * destruct (fields !! "alignment") as [al|]; try done.
        by destruct (truthy (Some al)).
    + intros [[e ->]|[->|(a & e & Ha & Ht & Hb)]]; try done.
      destruct m as [e'|d]; [done|]. destruct d; try done.
      unfold_listener. simpl in *. rewrite Ha. simpl. rewrite Ht.
      unfold Buffer_from in Hb. by destruct a; simplify_eq/=; repeat case_match.
  - intros st. split; [apply on_message_rejected|].
    intros [e He]. destruct (accepted m) eqn:Hacc; [|done].
    by rewrite on_message_accepted in He.
  - intros fields s -> Ha. apply accepted_string_audio.
    intros a Hsome Ht. destruct Ha as [Ha|[Ha|Ha]]; simplify_eq; eauto.
    by rewrite Hsome, Ht in Ha.
Qed.

(** X6. The whole request, end to end: a POST with a record id that
    converts to text and whose record holds a script, a socket that opens,
    delivers frames the listener processes, at least one of them with audio,
    and closes, and a storage and a record store that accept, give the 200
    response with the address and the record id, after exactly these calls
    in this order: the record fetch, the connection, the three frames, the
    upload of the concatenated fragments under the key made of that text and
    the clock reading, and the write-back of the address and the timing
    list. *)
Theorem handler_end_to_end w b rid s record scriptText ms :
  get_prop b "recordId" = Normal (Some rid) ->
  truthy (Some rid) = true ->
  ToString rid = Normal s ->
  airtable_find w rid = Normal record ->
  record !! "Script" = Some scriptText ->
  truthy (Some scriptText) = true ->
  ws_events w = EvOpen :: (EvMessage <$> ms) ++ [EvClose] ->
  Forall (fun m => accepted m = true) ms ->
  omap audio_fragment ms <> [] ->
  s3_send w (upload_command w rid (omap audio_fragment ms)) = Normal () ->
  airtable_update w rid (UpdateFields (session_url w rid) (omap alignment_payload ms))
  = Normal () ->
  let st := handler w (post b) in
  sent st
  = Some (Response 200
            (JObject {[ "message" := JString "Successfully generated audio and updated records.";
                        "audioUrl" := JString (session_url w rid);
                        "recordId" := rid ]}))
  /\ calls st
     = [AirtableFind rid;
        WebSocketOpen (socketUrl w) (env w !! "ELEVENLABS_API_KEY");
        WebSocketSend bosMessage; WebSocketSend (textMessage scriptText);
        WebSocketSend eosMessage;
        S3Send (upload_command w rid (omap audio_fragment ms));
        AirtableUpdate rid (UpdateFields (session_url w rid) (omap alignment_payload ms))]
  /\ s3_objects st
     = {[ fileName rid (Date_now w) := (concat (omap audio_fragment ms), "audio/mpeg"%string) ]}
  /\ fileName rid (Date_now w) = "audio/" +:+ s +:+ "-" +:+ pretty (Date_now w) +:+ ".mp3"
  /\ uncaught st = None.
Proof.
  intros Hrid Ht Hs Hfind Hscript Hts Hevs Hall Hne Hs3 Hup st. subst st.
  rewrite (handler_session w b rid s record scriptText) by done.
  rewrite Hevs, app_comm_cons, session_closing, session_streaming by done.
  set (st := State _ _ _ _ _ _ _).
  rewrite (close_upload_succeeds w scriptText rid st) by done.
  simpl. rewrite Hup. split_and!; try done.
  unfold fileName. by rewrite (converted_ToString rid s Hs).
Qed.

(** X7. For a record id that converts to text: when the record cannot be
    fetched, or holds no script or an empty one, [handler] answers 500 having
    called the record store once and nothing else: no connection is opened,
    nothing is uploaded, nothing is written back. *)
Theorem handler_stops_before_session w b rid s :
  get_prop b "recordId" = Normal (Some rid) ->
  truthy (Some rid) = true ->
  ToString rid = Normal s ->
  (exists e, airtable_find w rid = Throw e)
  \/ (exists record, airtable_find w rid = Normal record
                     /\ truthy (record !! "Script") = false) ->
  let st := handler w (post b) in
  calls st = [AirtableFind rid]
  /\ (exists r, sent st = Some r /\ status r = 500%Z)
  /\ s3_objects st = ∅
  /\ uncaught st = None.
Proof.
  intros Hrid Ht Hs Hfail st. subst st. unfold handler, post.
  simpl String.eqb. cbn [method req_body negb].
  destruct b; simplify_eq/=. rewrite Hrid, Ht, Hs. cbn [negb].
  destruct Hfail as [[e Hfind]|(record & Hfind & Hscript)]; rewrite Hfind.
  - split_and!; try done. eexists. by split.
  - destruct (record !! "Script") as [script|]; [rewrite Hscript|];
      (split_and!; try done; eexists; by split).
Qed.

(** *** Storage keys *)

Lemma pretty_N_go_dash_free x s : dash_free s = true -> dash_free (pretty_N_go x s) = true.
Proof.
  revert s. induction (N.lt_wf_0 x) as [x _ IH]; intros s Hs.
  assert (x = 0 \/ 0 < x)%N as [->|Hpos] by lia.
  - by rewrite pretty_N_go_0.
  - rewrite pretty_N_go_step by done. apply IH.
    { by apply N.div_lt. }
    simpl. rewrite Hs, andb_true_r.
    unfold pretty_N_char. by repeat case_match.
Qed.

Lemma pretty_Z_dash_free (t : Z) : (0 <= t)%Z -> dash_free (pretty t) = true.
Proof.
  intros Ht. destruct t as [|p|p]; [done| |lia].
  unfold pretty, pretty_Z, pretty, pretty_positive, pretty, pretty_N.
  case_decide; [done|]. by apply pretty_N_go_dash_free.
Qed.

Lemma dash_free_app s t : dash_free (s +:+ t) = dash_free s && dash_free t.
Proof. induction s as [|c s IH]; simpl; [done|]. by rewrite IH, andb_assoc. Qed.

Lemma string_app_nil_l (s : string) : "" +:+ s = s.
Proof. done. Qed.

Lemma string_app_cons c (s t : string) : String c s +:+ t = String c (s +:+ t).
Proof. done. Qed.

Lemma string_app_assoc (s t u : string) : (s +:+ t) +:+ u = s +:+ t +:+ u.
Proof.
  induction s as [|c s IH]; [done|]. by rewrite !string_app_cons, IH.
Qed.

(** A text is cut at its last dash in one way only. *)
Lemma last_dash_unique s1 s2 d1 d2 :
  dash_free d1 = true -> dash_free d2 = true ->
  s1 +:+ "-" +:+ d1 = s2 +:+ "-" +:+ d2 -> s1 = s2 /\ d1 = d2.
Proof.
  intros Hd1 Hd2. revert s2. induction s1 as [|c s1 IH]; intros [|c' s2] Heq;
    rewrite ?string_app_cons, ?string_app_nil_l in Heq.
  - by simplify_eq.
  - injection Heq as <- ->. rewrite dash_free_app in Hd1.
    simpl in Hd1. by rewrite andb_false_r in Hd1.
  - injection Heq as -> <-. rewrite dash_free_app in Hd2.
    simpl in Hd2. by rewrite andb_false_r in Hd2.
  - injection Heq as -> Heq. by destruct (IH s2 Heq) as [-> ->].
Qed.

(** X8. A storage key can be read back: for clock readings that are not
    negative, two keys are the same only if they were made from the same
    record id text and the same reading, so uploads for record ids of
    different texts never overwrite one another. *)
Theorem storage_key_read_back rid1 rid2 (t1 t2 : Z) :
  (0 <= t1)%Z -> (0 <= t2)%Z ->
  fileName rid1 t1 = fileName rid2 t2 ->
  converted rid1 = converted rid2 /\ t1 = t2
  /\ (forall s1 s2, ToString rid1 = Normal s1 -> ToString rid2 = Normal s2 -> s1 = s2).
Proof.
  intros Ht1 Ht2. unfold fileName. intros Heq.
  apply String.app_inj in Heq.
  assert (Hcut : converted rid1 +:+ "-" +:+ pretty t1 = converted rid2 +:+ "-" +:+ pretty t2).
  { apply (string_app_inj_r ".mp3").
    by rewrite !string_app_assoc. }
  apply last_dash_unique in Hcut as [Hc Hp]; [|by apply pretty_Z_dash_free..].
  split_and!; [done|by apply (inj pretty) in Hp|].
  intros s1 s2 Hs1 Hs2.
  by rewrite <- (converted_ToString rid1 s1 Hs1), <- (converted_ToString rid2 s2 Hs2).
Qed.

(** * The handler of the streamed HTTP response *)

Ltac unfold_rest :=
  unfold Rest.try_block, Rest.await, Rest.throw, Rest.awaited, Rest.stored,
    mbind, Rest.step_bind, mret, Rest.step_ret, Rest.nothing_done in *.

Lemma rest_loop (arrays : list (list byte) * list json) body :
  foldl Rest.loop_body arrays body
  = (arrays.1 ++ omap Rest.audio_of body, arrays.2 ++ omap Rest.timestamp_of body).
Proof.
  revert arrays. induction body as [|c body IH]; intros [audio ts]; simpl.
  - by rewrite !app_nil_r.
  - rewrite IH. unfold Rest.loop_body, Rest.audio_of, Rest.timestamp_of.
    destruct (Rest.chunk_json c); simpl; by rewrite <- ?app_assoc.
Qed.

(** X9. The loop over the body puts every chunk in exactly one of the two
    arrays: a chunk whose text parses as JSON, whatever the value, goes to
    the timestamps as that value, and every other chunk goes to the audio as
    its bytes; each array keeps the order of arrival. *)
Theorem rest_chunks_partition (body : list Rest.chunk) :
  Rest.read_stream body = (omap Rest.audio_of body, omap Rest.timestamp_of body)
  /\ length (omap Rest.audio_of body) + length (omap Rest.timestamp_of body) = length body
  /\ (forall c, is_Some (Rest.audio_of c) <-> Rest.timestamp_of c = None)
  /\ (forall body', Rest.read_stream (body ++ body')
                    = ((Rest.read_stream body).1 ++ (Rest.read_stream body').1,
                       (Rest.read_stream body).2 ++ (Rest.read_stream body').2)).
Proof.
  assert (Hread : forall l, Rest.read_stream l
                            = (omap Rest.audio_of l, omap Rest.timestamp_of l)).
  { intros l. unfold Rest.read_stream. by rewrite rest_loop. }
  split_and!.
  - apply Hread.
  - induction body as [|c body IH]; [done|].
    rewrite !omap_cons_option_list, !length_app. simpl length at 5.
    unfold Rest.audio_of at 1, Rest.timestamp_of at 1.
    destruct (Rest.chunk_json c); simpl; lia.
  - intros c. unfold Rest.audio_of, Rest.timestamp_of.
    destruct (Rest.chunk_json c); split; try done; by intros [? ?].
  - intros body'. rewrite !Hread. simpl. by rewrite !omap_app.
Qed.

Lemma rest_read_stream body :
  Rest.read_stream body = (omap Rest.audio_of body, omap Rest.timestamp_of body).
Proof. unfold Rest.read_stream. by rewrite rest_loop. Qed.

Lemma rest_no_audio body :
  Forall (fun c => is_Some (Rest.timestamp_of c)) body -> omap Rest.audio_of body = [].
Proof.
  induction 1 as [|c body [v Hv] _ IH]; [done|].
  rewrite omap_cons_option_list, IH. unfold Rest.audio_of, Rest.timestamp_of in *.
  by destruct (Rest.chunk_json c).
Qed.

Lemma rest_handler_try sw b rid s :
  get_prop b "recordId" = Normal (Some rid) ->
  truthy (Some rid) = true ->
  ToString rid = Normal s ->
  Rest.handler sw (post b)
  = match Rest.try_block sw rid Rest.nothing_done with
    | (p, Normal r) => Rest.Outcome p (Some r) None
    | (p, Throw error) => Rest.Outcome p (Some (internal_error error)) None
    end.
Proof.
  intros Hrid Ht Hs. unfold Rest.handler, post. simpl String.eqb. cbn [method req_body negb].
  destruct b; simplify_eq/=. by rewrite Hrid, Ht, Hs.
Qed.

(** The [try] block, path by path, once the script is in hand. *)
Lemma rest_try_block sw rid record scriptText :
  airtable_find (Rest.collaborators sw) rid = Normal record ->
  record !! "Script" = Some scriptText ->
  truthy (Some scriptText) = true ->
  let find := Rest.AirtableFind rid in
  let ask := Rest.Fetch (Rest.request_for sw scriptText) in
  Rest.try_block sw rid Rest.nothing_done
  = match Rest.fetch sw (Rest.request_for sw scriptText) with
    | Throw e => (Rest.Progress [find; ask] ∅, Throw e)
    | Normal r =>
        if Rest.ok r
        then
          match Rest.response_body_error r with
          | Some e => (Rest.Progress [find; ask] ∅, Throw e)
          | None =>
              let cmd := Rest.upload_for sw rid (Rest.response_body r) in
              let fields := UpdateFields (Rest.url_for sw rid)
                                         (omap Rest.timestamp_of (Rest.response_body r)) in
              match s3_send (Rest.collaborators sw) cmd with
              | Throw e => (Rest.Progress [find; ask; Rest.S3Send cmd] ∅, Throw e)
              | Normal _ =>
                  let p := Rest.Progress
                             [find; ask; Rest.S3Send cmd; Rest.AirtableUpdate rid fields]
                             {[ Key cmd := (Body cmd, ContentType cmd) ]} in
                  match airtable_update (Rest.collaborators sw) rid fields with
                  | Throw e => (p, Throw e)
                  | Normal _ => (p, Normal (Rest.success (Rest.url_for sw rid) rid))
                  end
              end
          end
        else
          match Rest.response_text r with
          | Throw e => (Rest.Progress [find; ask] ∅, Throw e)
          | Normal errorBody =>
              (Rest.Progress [find; ask] ∅, Throw (Rest.provider_error r errorBody))
          end
    end.
Proof.
  intros Hfind Hscript Hts find ask. unfold_rest. simpl. rewrite Hfind, Hscript, Hts. simpl.
  destruct (Rest.fetch sw _) as [r|e]; [|done].
  destruct (Rest.ok r); simpl.
  - rewrite rest_read_stream.
    destruct (Rest.response_body_error r); [done|].
    unfold Rest.upload_for, Rest.url_for. simpl.
    destruct (s3_send _ _); simpl; [|done].
    by destruct (airtable_update _ _ _).
  - by destruct (Rest.response_text r).
Qed.

(** X10. The streamed request, end to end, for a record id that converts to
    text: when the provider answers with a 2xx status and its body ends
    without an error, and the storage and the record store accept, the
    request is answered 200 after exactly four
    calls, in this order: the record fetch, the provider request, the upload
    of the concatenated audio chunks, the write-back of the address and the
    timestamps.  The function never checks that audio arrived: when every
    chunk parses as JSON, the empty body included, the object it uploads is
    empty and the request still succeeds. *)
Theorem rest_end_to_end sw b rid scriptText r :
  Rest.reaches_provider sw b rid scriptText ->
  Rest.fetch sw (Rest.request_for sw scriptText) = Normal r ->
  Rest.ok r = true ->
  Rest.response_body_error r = None ->
  let cmd := Rest.upload_for sw rid (Rest.response_body r) in
  let fields := UpdateFields (Rest.url_for sw rid)
                             (omap Rest.timestamp_of (Rest.response_body r)) in
  s3_send (Rest.collaborators sw) cmd = Normal () ->
  airtable_update (Rest.collaborators sw) rid fields = Normal () ->
  Rest.handler sw (post b)
  = Rest.Outcome
      (Rest.Progress [Rest.AirtableFind rid; Rest.Fetch (Rest.request_for sw scriptText);
                      Rest.S3Send cmd; Rest.AirtableUpdate rid fields]
                     {[ fileName rid (Date_now (Rest.collaborators sw))
                        := (concat (omap Rest.audio_of (Rest.response_body r)),
                            "audio/mpeg"%string) ]})
      (Some (Rest.success (Rest.url_for sw rid) rid)) None
  /\ (Forall (fun c => is_Some (Rest.timestamp_of c)) (Rest.response_body r) ->
      Body cmd = []).
Proof.
  intros (Hrid & Ht & [s Hs] & record & Hfind & Hscript & Hts) Hfetch Hok Herr cmd fields Hs3 Hup.
  split.
  - rewrite (rest_handler_try sw b rid s) by done.
    rewrite (rest_try_block sw rid record scriptText) by done.
    simpl. rewrite Hfetch, Hok, Herr. fold cmd. rewrite Hs3. fold fields. by rewrite Hup.
  - intros Hall. subst cmd. simpl.
    by rewrite rest_no_audio.
Qed.

(** X11. For a record id that converts to text and whose record holds a
    script: whatever goes wrong with the provider (the request fails, the
    status is not 2xx, the error text cannot be read, the body breaks off)
    the request is answered 500 after the record fetch and the provider
    request and nothing else: nothing is uploaded, even if audio chunks had
    arrived, and nothing is written back.  For a status that is not 2xx the
    message is [ElevenLabs API Error:], the status and the text of the
    response. *)
Theorem rest_provider_failure sw b rid scriptText e :
  Rest.reaches_provider sw b rid scriptText ->
  let ask := Rest.request_for sw scriptText in
  let stopped error :=
    Rest.Outcome (Rest.Progress [Rest.AirtableFind rid; Rest.Fetch ask] ∅)
                 (Some (internal_error error)) None in
  (Rest.fetch sw ask = Throw e -> Rest.handler sw (post b) = stopped e)
  /\ (forall r, Rest.fetch sw ask = Normal r -> Rest.ok r = false ->
        (Rest.response_text r = Throw e -> Rest.handler sw (post b) = stopped e)
        /\ (forall errorBody,
              Rest.response_text r = Normal errorBody ->
              Rest.handler sw (post b)
              = stopped (Error ("ElevenLabs API Error: " +:+ pretty (Rest.response_status r)
                                +:+ " " +:+ errorBody))))
  /\ (forall r, Rest.fetch sw ask = Normal r -> Rest.ok r = true ->
        Rest.response_body_error r = Some e -> Rest.handler sw (post b) = stopped e).
Proof.
  intros (Hrid & Ht & [s Hs] & record & Hfind & Hscript & Hts) ask stopped.
  rewrite (rest_handler_try sw b rid s) by done.
  rewrite (rest_try_block sw rid record scriptText) by done.
  simpl. fold ask. split_and!.
  - by intros ->.
  - intros r -> ->. split; [by intros ->|]. by intros errorBody ->.
  - by intros r -> -> ->.
Qed.

(** X12. For a record id that converts to text and whose record holds a
    script: when the body has been read and the upload fails, the request is
    answered 500 and the record store is not written; when the upload
    succeeds and the write-back fails, the request is answered 500 as well
    and the object stays in the bucket, with no call after the write-back. *)
Theorem rest_storage_failures sw b rid scriptText r e :
  Rest.reaches_provider sw b rid scriptText ->
  Rest.fetch sw (Rest.request_for sw scriptText) = Normal r ->
  Rest.ok r = true ->
  Rest.response_body_error r = None ->
  let find := Rest.AirtableFind rid in
  let ask := Rest.Fetch (Rest.request_for sw scriptText) in
  let cmd := Rest.upload_for sw rid (Rest.response_body r) in
  let fields := UpdateFields (Rest.url_for sw rid)
                             (omap Rest.timestamp_of (Rest.response_body r)) in
  (s3_send (Rest.collaborators sw) cmd = Throw e ->
   Rest.handler sw (post b)
   = Rest.Outcome (Rest.Progress [find; ask; Rest.S3Send cmd] ∅)
                  (Some (internal_error e)) None)
  /\ (s3_send (Rest.collaborators sw) cmd = Normal () ->
      airtable_update (Rest.collaborators sw) rid fields = Throw e ->
      Rest.handler sw (post b)
      = Rest.Outcome
          (Rest.Progress [find; ask; Rest.S3Send cmd; Rest.AirtableUpdate rid fields]
                         {[ Key cmd := (Body cmd, ContentType cmd) ]})
          (Some (internal_error e)) None).
Proof.
  intros (Hrid & Ht & [s Hs] & record & Hfind & Hscript & Hts) Hfetch Hok Herr find ask cmd fields.
  rewrite (rest_handler_try sw b rid s) by done.
  rewrite (rest_try_block sw rid record scriptText) by done.
  simpl. rewrite Hfetch, Hok, Herr. fold cmd fields. split.
  - by intros ->.
  - intros -> Hup. by rewrite Hup.
Qed.

Lemma rest_try_block_shape sw rid p res :
  Rest.try_block sw rid Rest.nothing_done = (p, res) ->
  Rest.kind <$> Rest.calls p `prefix_of` [0; 1; 2; 3]
  /\ (forall r, res = Normal r ->
                Rest.kind <$> Rest.calls p = [0; 1; 2; 3] /\ status r = 200%Z)
  /\ (Rest.s3_objects p = ∅
      \/ exists cmd, Rest.S3Send cmd ∈ Rest.calls p
                     /\ s3_send (Rest.collaborators sw) cmd = Normal ()
                     /\ Rest.s3_objects p = {[ Key cmd := (Body cmd, ContentType cmd) ]}).
Proof.
  unfold_rest. simpl.
  destruct (airtable_find _ rid) as [record|e]; simpl.
  2:{ intros [= <- <-]. split_and!; [by exists [1; 2; 3]|done|by left]. }
  destruct (record !! "Script") as [scriptText|].
  2:{ intros [= <- <-]. split_and!; [by exists [1; 2; 3]|done|by left]. }
  destruct (truthy (Some scriptText)); simpl.
  2:{ intros [= <- <-]. split_and!; [by exists [1; 2; 3]|done|by left]. }
  destruct (Rest.fetch sw _) as [r|e]; simpl.
  2:{ intros [= <- <-]. split_and!; [by exists [2; 3]|done|by left]. }
  destruct (Rest.ok r); simpl.
  2:{ destruct (Rest.response_text r); simpl; intros [= <- <-];
        (split_and!; [by exists [2; 3]|done|by left]). }
  rewrite rest_read_stream.
  destruct (Rest.response_body_error r).
  { intros [= <- <-]. split_and!; [by exists [2; 3]|done|by left]. }
  simpl. destruct (s3_send _ _) as [[]|e] eqn:Hs3; simpl.
  2:{ intros [= <- <-]. split_and!; [by exists [3]|done|by left]. }
  destruct (airtable_update _ _ _); simpl; intros [= <- <-]; simpl.
  - split_and!; [by exists []|by intros ? [= <-]|].
    right. eexists. split_and!; [|exact Hs3|done].
    do 2 apply list_elem_of_further. apply list_elem_of_here.
  - split_and!; [by exists []|done|].
    right. eexists. split_and!; [|exact Hs3|done].
    do 2 apply list_elem_of_further. apply list_elem_of_here.
Qed.

(** X13. The calls of the streamed request always come in one order: the
    record fetch, then the provider request, then the upload, then the
    write-back, each at most once and none after a failure.  So nothing is
    uploaded before the provider has answered and nothing is written back
    before the upload went through; a 200 response means all four were made;
    and the bucket holds an object only if the storage accepted the upload
    that is in the log. *)
Theorem rest_calls_in_order sw req :
  let o := Rest.handler sw req in
  Rest.kind <$> Rest.calls (Rest.reached o) `prefix_of` [0; 1; 2; 3]
  /\ (forall r, Rest.sent o = Some r -> status r = 200%Z ->
                Rest.kind <$> Rest.calls (Rest.reached o) = [0; 1; 2; 3])
  /\ (Rest.s3_objects (Rest.reached o) = ∅
      \/ exists cmd, Rest.S3Send cmd ∈ Rest.calls (Rest.reached o)
                     /\ s3_send (Rest.collaborators sw) cmd = Normal ()
                     /\ Rest.s3_objects (Rest.reached o)
                        = {[ Key cmd := (Body cmd, ContentType cmd) ]}).
Proof.
  assert (Hnone : forall r : option response,
             (forall r', r = Some r' -> status r' <> 200%Z) ->
             forall u,
             let o := Rest.Outcome Rest.nothing_done r u in
             Rest.kind <$> Rest.calls (Rest.reached o) `prefix_of` [0; 1; 2; 3]
             /\ (forall r', Rest.sent o = Some r' -> status r' = 200%Z ->
                            Rest.kind <$> Rest.calls (Rest.reached o) = [0; 1; 2; 3])
             /\ (Rest.s3_objects (Rest.reached o) = ∅
                 \/ exists cmd, Rest.S3Send cmd ∈ Rest.calls (Rest.reached o)
                                /\ s3_send (Rest.collaborators sw) cmd = Normal ()
                                /\ Rest.s3_objects (Rest.reached o)
                                   = {[ Key cmd := (Body cmd, ContentType cmd) ]})).
  { intros r Hr u o. split_and!; [by exists [0; 1; 2; 3]| |by left].
    simpl. intros r' -> Hs. by destruct (Hr r' eq_refl). }
  destruct req as [meth body]. unfold Rest.handler. cbn [method req_body].
  destruct (String.eqb meth "POST"); cbn [negb];
    [|apply Hnone; intros ? ?; by simplify_eq/=].
  destruct body as [b|]; [|apply Hnone; intros ? ?; by simplify_eq/=].
  destruct b as [|bb|x|s|items|fields]; cbn [get_prop];
    try (apply Hnone; intros ? ?; by simplify_eq/=).
  destruct (fields !! "recordId") as [rid|]; [|apply Hnone; intros ? ?; by simplify_eq/=].
  destruct (truthy (Some rid)); cbn [negb]; [|apply Hnone; intros ? ?; by simplify_eq/=].
  destruct (ToString rid) as [s|e]; [|apply Hnone; intros ? ?; by simplify_eq/=].
  destruct (Rest.try_block sw rid Rest.nothing_done) as [p res] eqn:Htry.
  destruct (rest_try_block_shape sw rid p res Htry) as (Hpre & Hok & Hobj).
  destruct res as [r|e]; simpl; split_and!; try done.
  - intros r' [= <-] _. by destruct (Hok r eq_refl).
  - by intros r' [= <-] Hs.
Qed.

(** X14. Unlike the socket revisions, the streamed request is not left
    without a response once its [try] block is entered: every request that
    has a body other than [null] and whose record id, if it has a truthy
    one, converts to text is answered exactly once, with 405 exactly when
    its method is not POST, and otherwise 400, 200 or 500; the 405 and 400
    responses come before any call to a collaborator. *)
Theorem rest_always_answers sw req b :
  req_body req = Some b -> b <> JNull ->
  (forall rid, get_prop b "recordId" = Normal (Some rid) -> truthy (Some rid) = true ->
               exists s, ToString rid = Normal s) ->
  let o := Rest.handler sw req in
  Rest.uncaught o = None
  /\ exists r, Rest.sent o = Some r
     /\ (status r = 405%Z <-> method req <> "POST"%string)
     /\ (status r = 200%Z \/ status r = 400%Z \/ status r = 405%Z \/ status r = 500%Z)
     /\ (status r = 405%Z \/ status r = 400%Z -> Rest.reached o = Rest.nothing_done).
Proof.
  destruct req as [meth body]. cbn [method req_body]. intros -> Hb Hconv.
  assert (Hanswer : forall p r,
             (status r = 405%Z <-> meth <> "POST"%string) ->
             status r = 200%Z \/ status r = 400%Z \/ status r = 405%Z \/ status r = 500%Z ->
             (status r = 405%Z \/ status r = 400%Z -> p = Rest.nothing_done) ->
             let o := Rest.Outcome p (Some r) None in
             Rest.uncaught o = None
             /\ exists r', Rest.sent o = Some r'
                /\ (status r' = 405%Z <-> meth <> "POST"%string)
                /\ (status r' = 200%Z \/ status r' = 400%Z \/ status r' = 405%Z
                    \/ status r' = 500%Z)
                /\ (status r' = 405%Z \/ status r' = 400%Z
                    -> Rest.reached o = Rest.nothing_done)).
  { intros p r H1 H2 H3 o. split; [done|]. exists r. by split_and!. }
  unfold Rest.handler. cbn [method req_body].
  destruct (String.eqb_spec meth "POST") as [->|Hne]; cbn [negb].
  { assert (H400 : forall p,
               p = Rest.nothing_done ->
               forall msg, let r := Response 400 msg in
               (status r = 405%Z <-> "POST"%string <> "POST"%string)
               /\ (status r = 200%Z \/ status r = 400%Z \/ status r = 405%Z
                   \/ status r = 500%Z)
               /\ (status r = 405%Z \/ status r = 400%Z -> p = Rest.nothing_done)).
    { intros p -> msg r. simpl. split_and!; [split; done|by right; left|done]. }
    destruct b as [|bb|x|s|items|fields]; cbn [get_prop]; try done;
      try (apply Hanswer; by apply (H400 _ eq_refl)).
    cbn [get_prop] in Hconv.
    destruct (fields !! "recordId") as [rid|]; [|apply Hanswer; by apply (H400 _ eq_refl)].
    destruct (truthy (Some rid)) eqn:Ht; cbn [negb];
      [|apply Hanswer; by apply (H400 _ eq_refl)].
    destruct (Hconv rid eq_refl Ht) as [s ->].
    destruct (Rest.try_block sw rid Rest.nothing_done) as [p res] eqn:Htry.
    destruct (rest_try_block_shape sw rid p res Htry) as (_ & Hok & _).
    destruct res as [r|e]; apply Hanswer.
    - destruct (Hok r eq_refl) as [_ Hs]. rewrite Hs. split; done.
    - destruct (Hok r eq_refl) as [_ Hs]. by left.
    - destruct (Hok r eq_refl) as [_ Hs]. rewrite Hs. by intros [?|?].
    - simpl. split; done.
    - simpl. by right; right; right.
    - simpl. by intros [?|?]. }
  apply Hanswer; simpl.
  - split; done.
  - by right; right; left.
  - done.
Qed.

(** * The two socket revisions compared *)

Lemma off_socket_app cs1 cs2 : off_socket (cs1 ++ cs2) = off_socket cs1 ++ off_socket cs2.
Proof. apply omap_app. Qed.

Lemma off_socket_idemp cs : off_socket (off_socket cs) = off_socket cs.
Proof.
  induction cs as [|c cs IH]; [done|]. destruct c; simpl; by rewrite ?IH.
Qed.

Lemma rev3_on_message m st : Revision3.on_message m st = on_message (rekey m) st.
Proof.
  unfold Revision3.on_message, on_message, rekey.
  destruct m as [e|[|bb|x|s|items|fields]]; try done.
  unfold mbind, completion_bind, get_prop.
  destruct (fields !! "audio_chunk") as [a|] eqn:Ha.
  - rewrite lookup_insert_eq, lookup_insert_ne by done. done.
  - rewrite lookup_delete_eq, lookup_delete_ne by done. done.
Qed.

Lemma off_socket_state_idemp st : off_socket_state (off_socket_state st) = off_socket_state st.
Proof. unfold off_socket_state. simpl. by rewrite off_socket_idemp. Qed.

Lemma off_socket_state_settle s st :
  off_socket_state (settle s st) = settle s (off_socket_state st).
Proof. unfold settle. simpl. by destruct (promise st). Qed.

Lemma off_socket_state_on_close w rid st :
  off_socket_state (on_close w rid st) = on_close w rid (off_socket_state st).
Proof.
  unfold on_close, resolve, reject. simpl.
  destruct (length (audioChunks st) =? 0); [apply off_socket_state_settle|].
  destruct (s3_send w _); rewrite off_socket_state_settle; f_equal;
    unfold off_socket_state; simpl; by rewrite off_socket_app.
Qed.

Lemma off_socket_state_handler_resume w rid st :
  off_socket_state (handler_resume w rid st) = handler_resume w rid (off_socket_state st).
Proof.
  unfold handler_resume. simpl. destruct (promise st); try done.
  destruct (airtable_update w rid _); unfold off_socket_state; simpl;
    by rewrite off_socket_app.
Qed.

Lemma off_socket_state_on_message m st :
  off_socket_state (match on_message m st with Normal st' => st' | Throw e => escape e st end)
  = match on_message m (off_socket_state st) with
    | Normal st' => st'
    | Throw e => escape e (off_socket_state st)
    end.
Proof.
  destruct (accepted m) eqn:Hacc.
  - by rewrite !on_message_accepted.
  - destruct (on_message_rejected m st Hacc) as [e He].
    pose proof (on_message_rejected m (off_socket_state st) Hacc) as [e' He'].
    rewrite He, He'.
    assert (e' = e) as ->; [|done].
    clear -He He'. unfold_listener. destruct m as [?|[]]; simpl in *; simplify_eq; try done;
      repeat (case_match; simplify_eq; try done).
Qed.

Lemma off_socket_state_listener w text rid ev st :
  off_socket_state (listener w text rid ev st)
  = off_socket_state (listener w text rid ev (off_socket_state st)).
Proof.
  destruct ev as [|m|e|]; cbn [listener].
  - unfold on_open, log, off_socket_state. simpl.
    by rewrite !off_socket_app, !app_nil_r, off_socket_idemp.
  - by rewrite !off_socket_state_on_message, off_socket_state_idemp.
  - unfold on_error, reject. by rewrite !off_socket_state_settle, off_socket_state_idemp.
  - by rewrite !off_socket_state_on_close, off_socket_state_idemp.
Qed.

Lemma off_socket_state_deliver w text rid ev st :
  off_socket_state (deliver w text rid st ev)
  = off_socket_state (deliver w text rid (off_socket_state st) ev).
Proof.
  unfold deliver. simpl. destruct (uncaught st); [by rewrite off_socket_state_idemp|].
  assert (Hp : is_pending (listener w text rid ev (off_socket_state st))
               = is_pending (listener w text rid ev st)).
  { unfold is_pending.
    change (promise (listener w text rid ev (off_socket_state st)))
      with (promise (off_socket_state (listener w text rid ev (off_socket_state st)))).
    by rewrite <- off_socket_state_listener. }
  rewrite Hp. unfold is_pending at 1 3. simpl.
  destruct (_ && _); [|apply off_socket_state_listener].
  by rewrite !off_socket_state_handler_resume, off_socket_state_listener.
Qed.

Lemma rev3_listener w text rid ev st :
  off_socket_state (Revision3.listener w text rid ev st)
  = off_socket_state (listener w text rid (rekey_event ev) st).
Proof.
  destruct ev as [|m|e|]; cbn [Revision3.listener listener rekey_event]; try done.
  - unfold Revision3.on_open, on_open, log, off_socket_state. simpl.
    by rewrite !off_socket_app.
  - by rewrite rev3_on_message.
Qed.

Lemma rev3_deliver w text rid ev st :
  off_socket_state (Revision3.deliver w text rid st ev)
  = off_socket_state (deliver w text rid st (rekey_event ev)).
Proof.
  unfold Revision3.deliver, deliver. destruct (uncaught st); [done|].
  assert (Hp : is_pending (Revision3.listener w text rid ev st)
               = is_pending (listener w text rid (rekey_event ev) st)).
  { unfold is_pending.
    change (promise (Revision3.listener w text rid ev st))
      with (promise (off_socket_state (Revision3.listener w text rid ev st))).
    by rewrite rev3_listener. }
  rewrite Hp. destruct (_ && _); [|apply rev3_listener].
  by rewrite !off_socket_state_handler_resume, rev3_listener.
Qed.

Lemma rev3_run w text rid evs st3 st2 :
  off_socket_state st3 = off_socket_state st2 ->
  off_socket_state (Revision3.run w text rid evs st3)
  = off_socket_state (run w text rid (rekey_event <$> evs) st2).
Proof.
  revert st3 st2. induction evs as [|ev evs IH]; intros st3 st2 Heq; [done|].
  rewrite fmap_cons. unfold Revision3.run, run in *. simpl. apply IH.
  rewrite rev3_deliver, off_socket_state_deliver, Heq.
  by rewrite <- off_socket_state_deliver.
Qed.

Lemma uploads_off_socket cs : uploads (off_socket cs) = uploads cs.
Proof. induction cs as [|c cs IH]; [done|]. destruct c; simpl; by rewrite ?IH. Qed.

Lemma write_backs_off_socket cs : write_backs (off_socket cs) = write_backs cs.
Proof. induction cs as [|c cs IH]; [done|]. destruct c; simpl; by rewrite ?IH. Qed.

Lemma rev3_handler_off_socket w req :
  off_socket_state (Revision3.handler w req)
  = off_socket_state (handler (with_events w (rekey_event <$> ws_events w)) req).
Proof.
  unfold Revision3.handler, handler.
  destruct (String.eqb (method req) "POST"); cbn [negb]; [|done].
  destruct (req_body req) as [b|]; [|done].
  destruct b as [|bb|x|s|items|fields]; cbn [get_prop]; try done.
  destruct (fields !! "recordId") as [rid|]; [|done].
  destruct (truthy (Some rid)); cbn [negb]; [|done].
  destruct (ToString rid) as [s|e]; [|done].
  change (airtable_find (with_events w (rekey_event <$> ws_events w)) rid)
    with (airtable_find w rid).
  destruct (airtable_find w rid) as [record|e]; [|done].
  destruct (record !! "Script") as [scriptText|]; [|done].
  destruct (truthy (Some scriptText)); cbn [negb]; [|done].
  unfold Revision3.generateAudioWithTimestamps, generateAudioWithTimestamps.
  change (ws_events (with_events w (rekey_event <$> ws_events w)))
    with (rekey_event <$> ws_events w).
  change (run (with_events w (rekey_event <$> ws_events w)))
    with (run w).
  by apply rev3_run.
Qed.

(** X15. The revision that reads [audio_chunk] and the revision that reads
    [audio] do the same on every request, up to the frames they send and the
    header they connect with: on the same socket events, with the audio of
    each frame moved from one field to the other, they give the same
    response, settle the session the same way, hold the same fragments and
    timing list, request the same uploads and write-backs and leave the same
    bucket. *)
Theorem revisions_agree_off_socket w req :
  let st3 := Revision3.handler w req in
  let st2 := handler (with_events w (rekey_event <$> ws_events w)) req in
  sent st3 = sent st2
  /\ promise st3 = promise st2
  /\ uncaught st3 = uncaught st2
  /\ audioChunks st3 = audioChunks st2
  /\ timestamps st3 = timestamps st2
  /\ uploads (calls st3) = uploads (calls st2)
  /\ write_backs (calls st3) = write_backs (calls st2)
  /\ s3_objects st3 = s3_objects st2
  /\ off_socket (calls st3) = off_socket (calls st2).
Proof.
  intros st3 st2.
  pose proof (rev3_handler_off_socket w req) as Heq. fold st3 st2 in Heq.
  unfold off_socket_state in Heq. injection Heq as Ha Ht Hp Hc Ho Hs Hu.
  split_and!; try done.
  - by rewrite <- (uploads_off_socket (calls st3)), Hc, uploads_off_socket.
  - by rewrite <- (write_backs_off_socket (calls st3)), Hc, write_backs_off_socket.
Qed.

Lemma rekey_without_audio_chunk fields :
  truthy (fields !! "audio_chunk") = false ->
  accepted (rekey (Parsed (JObject fields))) = true
  /\ audio_fragment (rekey (Parsed (JObject fields))) = None.
Proof.
  intros Ht. unfold rekey.
  destruct (fields !! "audio_chunk") as [a|] eqn:Ha.
  - unfold_listener. simpl. rewrite !lookup_insert_eq, lookup_insert_ne by done. simpl.
    rewrite Ht. split; [|done].
    destruct (fields !! "alignment") as [al|]; [|done]. by destruct (truthy (Some al)).
  - unfold_listener. simpl. rewrite !lookup_delete_eq, lookup_delete_ne by done. simpl.
    split; [|done].
    destruct (fields !! "alignment") as [al|]; [|done]. by destruct (truthy (Some al)).
Qed.

(** X16. The revision that reads [audio_chunk] takes no audio from any other
    field: on a request whose record id converts to text and whose record
    holds a script, when no frame of the session has a truthy [audio_chunk],
    whatever the frames hold under [audio], the request is answered 500 with
    the empty-audio error once the connection closes, nothing is uploaded
    and nothing is written back. *)
Theorem revision3_needs_audio_chunk w b rid s record scriptText ms :
  get_prop b "recordId" = Normal (Some rid) ->
  truthy (Some rid) = true ->
  ToString rid = Normal s ->
  airtable_find w rid = Normal record ->
  record !! "Script" = Some scriptText ->
  truthy (Some scriptText) = true ->
  ws_events w = EvOpen :: (EvMessage <$> ms) ++ [EvClose] ->
  Forall (fun m => exists fields,
              m = Parsed (JObject fields) /\ truthy (fields !! "audio_chunk") = false) ms ->
  let st := Revision3.handler w (post b) in
  sent st = Some (internal_error EmptyAudioError)
  /\ promise st = Rejected EmptyAudioError
  /\ audioChunks st = []
  /\ uploads (calls st) = []
  /\ write_backs (calls st) = [].
Proof.
  intros Hrid Ht Hs Hfind Hscript Hts Hevs Hall st.
  pose proof (rev3_handler_off_socket w (post b)) as Heq. fold st in Heq.
  set (w' := with_events w (rekey_event <$> ws_events w)) in *.
  rewrite (handler_session w' b rid s record scriptText) in Heq by done.
  change (ws_events w') with (rekey_event <$> ws_events w) in Heq.
  rewrite Hevs, fmap_cons, fmap_app, <- list_fmap_compose in Heq. simpl in Heq.
  change (rekey_event ∘ EvMessage) with (EvMessage ∘ rekey) in Heq.
  rewrite list_fmap_compose in Heq.
  assert (Hacc : Forall (fun m => accepted m = true) (rekey <$> ms)).
  { apply Forall_fmap. eapply Forall_impl; [done|].
    intros m (fields & -> & Hf). by apply rekey_without_audio_chunk. }
  assert (Hnone : omap audio_fragment (rekey <$> ms) = []).
  { clear -Hall. induction Hall as [|m ms (fields & -> & Hf) _ IH]; [done|].
    rewrite fmap_cons, omap_cons_option_list, IH.
    by destruct (rekey_without_audio_chunk fields Hf) as [_ ->]. }
  rewrite app_comm_cons, session_closing, session_streaming in Heq by done.
  rewrite close_without_chunks in Heq by done.
  unfold off_socket_state in Heq. simpl in Heq.
  injection Heq as Ha Hti Hp Hc Ho Hsent Hu.
  split_and!; try done.
  - by rewrite <- uploads_off_socket, Hc.
  - by rewrite <- write_backs_off_socket, Hc.
Qed.


(** * The record id that cannot be converted *)

Lemma ToString_own_toString fields v :
  fields !! "toString" = Some v ->
  ToString (JObject fields) = Throw (TypeError "Cannot convert object to primitive value").
Proof. simpl. by intros ->. Qed.

(** X17. Each of the three handlers writes the record id into a log line
    before its [try] block.  A record id that is truthy and whose conversion
    to text throws (an object with a field of its own named [toString], or an
    array that holds one) therefore ends the request where it stands: the
    error is caught nowhere in the module, the handler sends no response,
    not even a 500, and no collaborator is called.  A record id that is a string, a number, a
    boolean or an object without such a field always converts. *)
Theorem unconvertible_record_id_escapes w sw b rid e :
  get_prop b "recordId" = Normal (Some rid) ->
  truthy (Some rid) = true ->
  ToString rid = Throw e ->
  (handler w (post b) = escape e initial
   /\ Revision3.handler w (post b) = escape e initial
   /\ Rest.handler sw (post b) = Rest.Outcome Rest.nothing_done None (Some e))
  /\ (sent (handler w (post b)) = None /\ calls (handler w (post b)) = []
      /\ uncaught (handler w (post b)) = Some e)
  /\ ((exists items, rid = JArray items)
      \/ (exists fields, rid = JObject fields /\ is_Some (fields !! "toString"))).
Proof.
  intros Hrid Ht Hs.
  assert (Hh : handler w (post b) = escape e initial).
  { unfold handler, post. simpl String.eqb. cbn [method req_body negb].
    destruct b; simplify_eq/=. by rewrite Hrid, Ht, Hs. }
  split_and!.
  - done.
  - unfold Revision3.handler, post. simpl String.eqb. cbn [method req_body negb].
    destruct b; simplify_eq/=. by rewrite Hrid, Ht, Hs.
  - unfold Rest.handler, post. simpl String.eqb. cbn [method req_body negb].
    destruct b; simplify_eq/=. by rewrite Hrid, Ht, Hs.
  - by rewrite Hh.
  - by rewrite Hh.
  - by rewrite Hh.
  - destruct rid as [|[]|x|s|items|fields]; try done.
    + left. by exists items.
    + right. exists fields. split; [done|].
      simpl in Hs. by destruct (fields !! "toString").
Qed.
End Properties.

(** * Concrete runs *)

#[local] Existing Instance reference_platform.

(** The reference decoder on canonical text, on padding, and on text that
    holds no complete byte. *)
Example reference_base64_ABC : reference_base64 "QUJD" = ["A"; "B"; "C"]%byte.
Proof. reflexivity. Qed.

Example reference_base64_padded : reference_base64 "RA==" = ["D"]%byte.
Proof. reflexivity. Qed.

Example reference_base64_no_byte :
  reference_base64 "=" = [] /\ reference_base64 "Q" = [] /\ reference_base64 " " = [].
Proof. by vm_compute. Qed.

Example truthy_examples :
  truthy None = false
  /\ truthy (Some JNull) = false
  /\ truthy (Some (JString "")) = false
  /\ truthy (Some (JNumber 0)) = false
  /\ truthy (Some (JString "0")) = true
  /\ truthy (Some (JArray [])) = true
  /\ truthy (Some (JObject ∅)) = true.
Proof. by vm_compute. Qed.

Example fileName_example :
  fileName rec1 1700000000123 = "audio/rec1-1700000000123.mp3"%string.
Proof. reflexivity. Qed.

(** The frames of the sample session and what the listener takes from them. *)
Example sample_frames_payloads :
  omap audio_fragment sample_frames = [["A"; "B"; "C"]; ["D"]]%byte
  /\ omap alignment_payload sample_frames = [alignment_of "a"; alignment_of "b"].
Proof. by vm_compute. Qed.

(** A frame that is [null], and a frame whose [audio] is a number, make the
    listener throw as well. *)
Example frames_not_accepted :
  accepted (Parsed JNull) = false
  /\ accepted (Parsed (JObject {[ "audio" := JNumber 1 ]})) = false
  /\ accepted (Malformed unexpected_token) = false.
Proof. by vm_compute. Qed.

Ltac not_in_list :=
  rewrite ?not_elem_of_cons; repeat split; try discriminate; apply not_elem_of_nil.

Lemma open_transmits_three_frames_witness :
  uncaught initial = None
  /\ (EvOpen ∉ [EvMessage (audio_message "QUJD"); EvClose])
  /\ outbound (calls (run (sample_world [] 0) hello rec1
                        [EvOpen; EvMessage (audio_message "QUJD"); EvClose] initial))
     = [bosMessage; textMessage hello; eosMessage].
Proof.
  split; [reflexivity|]. split; [not_in_list|].
  apply (open_transmits_three_frames (sample_world [] 0) hello rec1
           [EvMessage (audio_message "QUJD"); EvClose] initial);
    [reflexivity | not_in_list].
Defined.

(** The round trip of a whole request: two audio frames, two alignment
    payloads and a status frame. *)
Lemma session_assembles_in_arrival_order_witness :
  Forall (fun m => accepted m = true) sample_frames
  /\ let st := session (sample_world [] 1700000000123) hello rec1
                 (EvOpen :: (EvMessage <$> sample_frames) ++ [EvClose]) in
     audioChunks st = [["A"; "B"; "C"]; ["D"]]%byte
     /\ timestamps st = [alignment_of "a"; alignment_of "b"]
     /\ Body <$> uploads (calls st) = [["A"; "B"; "C"; "D"]%byte]
     /\ promise st
        = Fulfilled "https://podcasts.s3.eu-west-1.amazonaws.com/audio/rec1-1700000000123.mp3"
                    [alignment_of "a"; alignment_of "b"].
Proof.
  assert (Hall : Forall (fun m => accepted m = true) sample_frames)
    by (repeat constructor).
  split; [exact Hall|].
  destruct (session_assembles_in_arrival_order (sample_world [] 1700000000123) hello rec1
              sample_frames) as (_ & Hacc & _).
  destruct (Hacc Hall) as (Ha & Ht & Hup).
  destruct Hup as [Hbody Hok]; [discriminate|].
  destruct Hok as (Hp & _); [reflexivity|].
  cbv zeta. rewrite Ha, Ht, Hbody, Hp. split_and!; reflexivity.
Defined.

Lemma close_without_fragments_rejects_witness :
  let ms := [alignment_message "a"; status_message; alignment_message "b"] in
  let st := session (sample_world [] 0) hello rec1 (EvOpen :: (EvMessage <$> ms) ++ [EvClose]) in
  Forall (fun m => accepted m = true) ms
  /\ omap audio_fragment ms = []
  /\ promise st = Rejected EmptyAudioError
  /\ timestamps st = [alignment_of "a"; alignment_of "b"]
  /\ uploads (calls st) = [].
Proof.
  intros ms st.
  assert (Hall : Forall (fun m => accepted m = true) ms) by (repeat constructor).
  destruct (close_without_fragments_rejects (sample_world [] 0) hello rec1) as [Hclose _].
  destruct (Hclose ms Hall eq_refl) as (Hp & _ & Ht & Hup & _).
  split_and!; [exact Hall | reflexivity | exact Hp | exact Ht | exact Hup].
Defined.

(** C2 fails as stated: a session whose only audio frame decodes to no byte
    is fulfilled, and the request is answered 200 with an empty object in the
    bucket. *)
Lemma empty_artifact_counterexample :
  let st := handler (sample_world [EvOpen; EvMessage (audio_message "="); EvClose]
                                  1700000000123) (post rec1_body) in
  status <$> sent st = Some 200%Z
  /\ audioChunks st = [[]]
  /\ Body <$> uploads (calls st) = [[]]
  /\ s3_objects st !! "audio/rec1-1700000000123.mp3"%string = Some ([], "audio/mpeg"%string).
Proof. by vm_compute. Qed.

Lemma malformed_frame_escapes_listener_witness :
  let st := session (sample_world [] 0) hello rec1 [EvOpen] in
  uncaught st = None
  /\ run (sample_world [] 0) hello rec1
         [EvMessage (Malformed unexpected_token); EvMessage (audio_message "QUJD"); EvClose] st
     = escape unexpected_token st.
Proof.
  intros st. split; [reflexivity|].
  apply (malformed_frame_escapes_listener (sample_world [] 0) hello rec1 unexpected_token st).
  reflexivity.
Defined.

(** C3 fails as stated: the listener throws on a frame that does not parse,
    the exception leaves the listener, and the request is never answered. *)
Lemma malformed_frame_counterexample :
  on_message (Malformed unexpected_token) initial = Throw unexpected_token
  /\ let st := handler (sample_world [EvOpen; EvMessage (Malformed unexpected_token);
                                      EvMessage (audio_message "QUJD"); EvClose] 0)
                       (post rec1_body) in
     uncaught st = Some unexpected_token
     /\ promise st = Pending
     /\ sent st = None.
Proof. by vm_compute. Qed.

Lemma transport_error_rejects_session_witness :
  let pre := [EvOpen; EvMessage (alignment_message "a")] in
  let st := session (sample_world [] 0) hello rec1 pre in
  let st' := session (sample_world [] 0) hello rec1 (pre ++ EvError socket_hang_up :: [EvClose]) in
  uncaught st = None /\ promise st = Pending
  /\ promise st' = Rejected socket_hang_up
  /\ sent st' = Some (internal_error socket_hang_up)
  /\ write_backs (calls st') = []
  /\ uploads (calls st') = [].
Proof.
  intros pre st st'.
  destruct (transport_error_rejects_session (sample_world [] 0) hello rec1 pre
              socket_hang_up [EvClose]) as (_ & Hp & Hs & _ & Hw & Hup); try reflexivity.
  split_and!;
    [reflexivity | reflexivity | exact Hp | exact Hs | exact Hw | apply Hup; reflexivity].
Defined.

(** C4 fails as stated: fragments received before the transport error are
    uploaded when the connection closes, although the request has already
    been answered 500. *)
Lemma upload_after_transport_error_counterexample :
  let st := handler (sample_world [EvOpen; EvMessage (audio_message "QUJD");
                                   EvError socket_hang_up; EvClose] 1700000000123)
                    (post rec1_body) in
  promise st = Rejected socket_hang_up
  /\ sent st = Some (internal_error socket_hang_up)
  /\ uploads (calls st)
     = [PutObjectCommand (Some "podcasts"%string) "audio/rec1-1700000000123.mp3"
                         ["A"; "B"; "C"]%byte "audio/mpeg"]
  /\ s3_objects st !! "audio/rec1-1700000000123.mp3"%string
     = Some (["A"; "B"; "C"]%byte, "audio/mpeg"%string).
Proof. by vm_compute. Qed.

Lemma frame_contributes_to_each_list_witness :
  let st' := State [["A"; "B"; "C"]%byte] [alignment_of "a"] Pending [] ∅ None None in
  on_message (full_message "QUJD" "a") initial = Normal st'
  /\ audioChunks st' = option_list (audio_fragment (full_message "QUJD" "a"))
  /\ timestamps st' = option_list (alignment_payload (full_message "QUJD" "a"))
  /\ is_Some (audio_fragment (full_message "QUJD" "a"))
  /\ is_Some (alignment_payload (full_message "QUJD" "a")).
Proof.
  intros st'.
  assert (Hm : on_message (full_message "QUJD" "a") initial = Normal st') by reflexivity.
  destruct (frame_contributes_to_each_list (full_message "QUJD" "a") initial st' Hm)
    as (Ha & Ht & _ & _ & Hsa & Hsal).
  split_and!; [exact Hm | exact Ha | exact Ht | apply Hsa; reflexivity | apply Hsal; reflexivity].
Defined.

(** C5 fails as stated: one frame with both fields is taken as an audio
    fragment and as an alignment event. *)
Lemma frame_with_both_fields_counterexample :
  on_message (full_message "QUJD" "a") initial
  = Normal (State [["A"; "B"; "C"]%byte] [alignment_of "a"] Pending [] ∅ None None).
Proof. by vm_compute. Qed.


(** The text of record ids: a string is its own text, an array is the join
    of its elements' texts, an object is [[object Object]] unless a field of
    its own hides [toString]. *)
Example ToString_examples :
  ToString rec1 = Normal "rec1"%string
  /\ ToString (JArray [JString "a"; JNull; JArray [JBool true; JString "b"]])
     = Normal "a,,true,b"%string
  /\ ToString (JObject {[ "id" := JString "a" ]}) = Normal "[object Object]"%string
  /\ ToString unconvertible = Throw cannot_convert
  /\ ToString (JArray [JString "a"; unconvertible]) = Throw cannot_convert.
Proof. by vm_compute. Qed.

(** Two runs on the same record, one millisecond apart. *)
Lemma storage_key_from_record_and_clock_witness :
  let evs := EvOpen :: (EvMessage <$> sample_frames) ++ [EvClose] in
  let w1 := sample_world evs 1700000000123 in
  let w2 := sample_world evs 1700000000124 in
  let cmd1 := PutObjectCommand (Some "podcasts"%string) "audio/rec1-1700000000123.mp3"
                               ["A"; "B"; "C"; "D"]%byte "audio/mpeg" in
  let cmd2 := PutObjectCommand (Some "podcasts"%string) "audio/rec1-1700000000124.mp3"
                               ["A"; "B"; "C"; "D"]%byte "audio/mpeg" in
  (Date_now w1 `div` 1000 = Date_now w2 `div` 1000)%Z
  /\ Date_now w1 <> Date_now w2
  /\ cmd1 ∈ uploads (calls (handler w1 (post rec1_body)))
  /\ cmd2 ∈ uploads (calls (handler w2 (post rec1_body)))
  /\ Key cmd1 <> Key cmd2
  /\ (exists r, sent (handler w1 (post rec1_body)) = Some r
                /\ get_prop (body r) "audioUrl"
                   = Normal (Some (JString
                       "https://podcasts.s3.eu-west-1.amazonaws.com/audio/rec1-1700000000123.mp3"))).
Proof.
  intros evs w1 w2 cmd1 cmd2.
  assert (Hnow : Date_now w1 <> Date_now w2) by discriminate.
  assert (Hin1 : cmd1 ∈ uploads (calls (handler w1 (post rec1_body))))
    by (vm_compute; apply list_elem_of_here).
  assert (Hin2 : cmd2 ∈ uploads (calls (handler w2 (post rec1_body))))
    by (vm_compute; apply list_elem_of_here).
  destruct storage_key_from_record_and_clock as [Hshape Hkeys].
  split_and!; [reflexivity | exact Hnow | exact Hin1 | exact Hin2 | |].
  - destruct (Hkeys w1 w2 (post rec1_body) cmd1 cmd2 Hin1 Hin2) as [_ Hne].
    apply Hne. exact Hnow.
  - eexists. split; [reflexivity|].
    destruct (Hshape w1 (post rec1_body) _ eq_refl eq_refl)
      as (b & rid & s & chunks & Hb & Hrid & Hs & _ & Hurl).
    injection Hb as <-. injection Hrid as <-. injection Hs as <-.
    exact Hurl.
Defined.

(** C8 fails as stated: two requests for the same record whose close
    listeners read the same millisecond of the clock upload different audio
    under one and the same key, and both are answered 200. *)
Lemma same_millisecond_counterexample :
  let w1 := sample_world [EvOpen; EvMessage (audio_message "QUJD"); EvClose] 1700000000123 in
  let w2 := sample_world [EvOpen; EvMessage (audio_message "RA=="); EvClose] 1700000000123 in
  status <$> sent (handler w1 (post rec1_body)) = Some 200%Z
  /\ status <$> sent (handler w2 (post rec1_body)) = Some 200%Z
  /\ uploads (calls (handler w1 (post rec1_body)))
     = [PutObjectCommand (Some "podcasts"%string) "audio/rec1-1700000000123.mp3"
                         ["A"; "B"; "C"]%byte "audio/mpeg"]
  /\ uploads (calls (handler w2 (post rec1_body)))
     = [PutObjectCommand (Some "podcasts"%string) "audio/rec1-1700000000123.mp3"
                         ["D"]%byte "audio/mpeg"].
Proof. by vm_compute. Qed.

Lemma handler_status_mapping_witness :
  sent (handler (sample_world [] 0) (Request "GET" (Some rec1_body)))
  = Some (Response 405 (JObject {[ "message" := JString "Method Not Allowed. Use POST." ]}))
  /\ sent (handler (sample_world [] 0) (post (JObject ∅)))
     = Some (Response 400 (JObject {[ "message" := JString "Missing required field: recordId" ]}))
  /\ calls (handler (sample_world [] 0) (post (JObject ∅))) = []
  /\ sent (handler world_without_record (post rec1_body)) = Some (internal_error update_refused).
Proof.
  split_and!.
  - destruct (handler_status_mapping (sample_world [] 0) (Request "GET" (Some rec1_body)))
      as (H405 & _).
    apply H405. discriminate.
  - destruct (handler_status_mapping (sample_world [] 0) (post (JObject ∅)))
      as (_ & H400 & _).
    apply (H400 (JObject ∅) None); reflexivity.
  - destruct (handler_status_mapping (sample_world [] 0) (post (JObject ∅)))
      as (_ & H400 & _).
    apply (H400 (JObject ∅) None); reflexivity.
  - destruct (handler_status_mapping world_without_record (post rec1_body))
      as (_ & _ & H500 & _).
    destruct (H500 rec1_body rec1 "rec1"%string) as (Hfind & _); [reflexivity..|].
    apply Hfind. reflexivity.
Defined.

(** C9 fails as stated: three failures get no response from [handler].
    A frame the listener cannot parse ends the session with an exception no
    one catches; a record id that cannot be converted to text makes
    [handler] throw at its log line, before the [try] block; so does a body
    that is [undefined] or [null], at the destructuring. *)
Lemma handler_status_counterexample :
  (let st := handler (sample_world [EvOpen; EvMessage (Malformed unexpected_token); EvClose] 0)
                     (post rec1_body) in
   sent st = None /\ uncaught st = Some unexpected_token)
  /\ (let st := handler (sample_world [] 0) (post unconvertible_body) in
      sent st = None /\ calls st = [] /\ uncaught st = Some cannot_convert)
  /\ (let st := handler (sample_world [] 0) (Request "POST" None) in
      sent st = None /\ is_Some (uncaught st))
  /\ (let st := handler (sample_world [] 0) (Request "POST" (Some JNull)) in
      sent st = None /\ is_Some (uncaught st)).
Proof. vm_compute. split_and!; eauto. Qed.

Lemma empty_audio_string_is_no_fragment_witness :
  let ms := [audio_message ""; alignment_message "a"; audio_message ""] in
  let st := session (sample_world [] 0) hello rec1 (EvOpen :: (EvMessage <$> ms) ++ [EvClose]) in
  promise st = Rejected EmptyAudioError
  /\ sent st = Some (internal_error EmptyAudioError)
  /\ uploads (calls st) = [].
Proof.
  intros ms st.
  destruct empty_audio_string_is_no_fragment as [_ Hsession].
  destruct (Hsession (sample_world [] 0) hello rec1 ms) as (_ & Hp & Hs & Hup & _).
  { repeat constructor; eexists; (split; [reflexivity|]);
      first [left; reflexivity | right; reflexivity]. }
  split_and!; [exact Hp | exact Hs | exact Hup].
Defined.

(** * Concrete runs of the further properties *)

Lemma settled_session_is_final_witness :
  let pre := [EvOpen; EvError socket_hang_up] in
  let post := [EvMessage (audio_message "QUJD"); EvClose] in
  promise (session (sample_world [] 0) hello rec1 pre) <> Pending
  /\ promise (session (sample_world [] 0) hello rec1 (pre ++ post)) = Rejected socket_hang_up
  /\ write_backs (calls (session (sample_world [] 0) hello rec1 (pre ++ post))) = [].
Proof.
  intros pre post.
  assert (Hp : promise (session (sample_world [] 0) hello rec1 pre) <> Pending)
    by discriminate.
  destruct (settled_session_is_final (sample_world [] 0) hello rec1 pre post Hp)
    as (Hpr & _ & Hw).
  split_and!; [exact Hp | exact Hpr | exact Hw].
Defined.

Lemma answered_exactly_when_settled_witness :
  let st := session (sample_world [] 0) hello rec1 [EvOpen; EvMessage (audio_message "QUJD")] in
  promise st = Pending /\ sent st = None.
Proof.
  intros st.
  destruct (answered_exactly_when_settled (sample_world [] 0) hello rec1
              [EvOpen; EvMessage (audio_message "QUJD")]) as (_ & Hiff & _).
  split; [reflexivity|]. apply Hiff. reflexivity.
Defined.

Lemma no_response_before_error_or_close_witness :
  let w := sample_world (EvOpen :: (EvMessage <$> sample_frames)) 0 in
  (forall e, EvError e ∉ ws_events w)
  /\ (EvClose ∉ ws_events w)
  /\ sent (handler w (post rec1_body)) = None
  /\ promise (handler w (post rec1_body)) = Pending.
Proof.
  intros w.
  assert (Herr : forall e, EvError e ∉ ws_events w)
    by (intros e; subst w; cbn; not_in_list).
  assert (Hclose : EvClose ∉ ws_events w) by (subst w; cbn; not_in_list).
  destruct (no_response_before_error_or_close w rec1_body rec1
              {[ "Script" := hello ]} hello) as (Hp & Hs & _); try reflexivity; try assumption.
  split_and!; [exact Herr | exact Hclose | exact Hs | exact Hp].
Defined.

Lemma write_back_exactly_when_fulfilled_witness :
  let st := session (sample_world [] 5) hello rec1
              [EvOpen; EvMessage (full_message "QUJD" "a"); EvClose; EvClose] in
  write_backs (calls st)
  = [(rec1, UpdateFields "https://podcasts.s3.eu-west-1.amazonaws.com/audio/rec1-5.mp3"
                         [alignment_of "a"])].
Proof.
  intros st.
  destruct (write_back_exactly_when_fulfilled (sample_world [] 5) hello rec1
              [EvOpen; EvMessage (full_message "QUJD" "a"); EvClose; EvClose])
    as (Hful & _).
  apply Hful. reflexivity.
Defined.

Lemma listener_throws_exactly_witness :
  accepted (Parsed (JObject {[ "audio" := JNumber 1 ]})) = false
  /\ accepted (audio_message "QUJD") = true.
Proof.
  split.
  - destruct (listener_throws_exactly (Parsed (JObject {[ "audio" := JNumber 1 ]})))
      as (Hiff & _).
    apply Hiff. right; right. exists (JNumber 1), (ERR_INVALID_ARG_TYPE (JNumber 1)).
    split_and!; reflexivity.
  - destruct (listener_throws_exactly (audio_message "QUJD")) as (_ & _ & Hstring).
    apply (Hstring {[ "audio" := JString "QUJD" ]} "QUJD"%string); [reflexivity|].
    right; right. reflexivity.
Defined.

Lemma handler_end_to_end_witness :
  let w := sample_world (EvOpen :: (EvMessage <$> sample_frames) ++ [EvClose]) 1700000000123 in
  let st := handler w (post rec1_body) in
  Forall (fun m => accepted m = true) sample_frames
  /\ omap audio_fragment sample_frames <> []
  /\ status <$> sent st = Some 200%Z
  /\ uploads (calls st)
     = [PutObjectCommand (Some "podcasts"%string) "audio/rec1-1700000000123.mp3"
                         ["A"; "B"; "C"; "D"]%byte "audio/mpeg"]
  /\ length (calls st) = 7.
Proof.
  intros w st.
  assert (Hall : Forall (fun m => accepted m = true) sample_frames) by (repeat constructor).
  assert (Hne : omap audio_fragment sample_frames <> []) by discriminate.
  destruct (handler_end_to_end w rec1_body rec1 "rec1" {[ "Script" := hello ]} hello
              sample_frames)
    as (Hs & Hc & _); try reflexivity; try assumption.
  fold st in Hs, Hc. rewrite Hs, Hc.
  split_and!; [exact Hall | exact Hne | reflexivity | reflexivity | reflexivity].
Defined.

Lemma handler_stops_before_session_witness :
  calls (handler world_without_record (post rec1_body)) = [AirtableFind rec1].
Proof.
  destruct (handler_stops_before_session world_without_record rec1_body rec1 "rec1")
    as (Hc & _); [reflexivity | reflexivity | reflexivity | | exact Hc].
  left. exists update_refused. reflexivity.
Defined.

Lemma storage_key_read_back_witness :
  let numbered := JArray [JString "rec"; JString "1"] in
  (0 <= 1700000000123)%Z
  /\ (forall t, (0 <= t)%Z -> fileName numbered t = fileName (JString "rec,1") 1700000000123 ->
                 t = 1700000000123%Z)
  /\ fileName numbered 1700000000123 = "audio/rec,1-1700000000123.mp3"%string.
Proof.
  intros numbered. split_and!; [discriminate| |reflexivity].
  intros t Ht Heq.
  destruct (storage_key_read_back numbered (JString "rec,1") t 1700000000123)
    as (_ & Hsame & _); [exact Ht | discriminate | exact Heq | exact Hsame].
Defined.

(** With a clock before 1970 the key cannot be read back. *)
Example storage_key_negative_clock :
  fileName (JString "a-") 5 = fileName (JString "a") (-5).
Proof. reflexivity. Qed.

Example rest_read_stream_sample :
  Rest.read_stream sample_stream = ([["A"; "B"]; ["C"]]%byte, [JObject ∅]).
Proof. reflexivity. Qed.

Lemma rest_chunks_partition_witness :
  length (Rest.read_stream sample_stream).1 + length (Rest.read_stream sample_stream).2 = 3.
Proof.
  destruct (rest_chunks_partition sample_stream) as (Hread & Hlen & _).
  rewrite Hread. exact Hlen.
Defined.

Lemma rest_reaches_sample (r : Rest.fetch_response) :
  Rest.reaches_provider (Rest.responding r) rec1_body rec1 hello.
Proof.
  split; [reflexivity|]. split; [reflexivity|]. split; [by exists "rec1"%string|].
  exists {[ "Script" := hello ]}. split_and!; reflexivity.
Defined.

Lemma rest_end_to_end_witness :
  let sw := Rest.responding stream_response in
  Rest.reaches_provider sw rec1_body rec1 hello
  /\ Rest.ok stream_response = true
  /\ status <$> Rest.sent (Rest.handler sw (post rec1_body)) = Some 200%Z
  /\ Rest.kind <$> Rest.calls (Rest.reached (Rest.handler sw (post rec1_body))) = [0; 1; 2; 3]
  /\ Rest.s3_objects (Rest.reached (Rest.handler sw (post rec1_body)))
     !! "audio/rec1-1700000000123.mp3"%string
     = Some (["A"; "B"; "C"]%byte, "audio/mpeg"%string).
Proof.
  intros sw.
  destruct (rest_end_to_end sw rec1_body rec1 hello stream_response) as [Hrun _];
    try reflexivity; [apply rest_reaches_sample|].
  rewrite Hrun.
  split_and!; [apply rest_reaches_sample | reflexivity | reflexivity | reflexivity | reflexivity].
Defined.

(** A body in which every chunk parses: the request succeeds with an empty
    object. *)
Example rest_empty_upload :
  let sw := Rest.responding
              (Rest.FetchResponse 200 (Normal ""%string) [Rest.json_chunk "1" (JNumber 1)] None) in
  let o := Rest.handler sw (post rec1_body) in
  status <$> Rest.sent o = Some 200%Z
  /\ Rest.s3_objects (Rest.reached o) !! "audio/rec1-1700000000123.mp3"%string
     = Some ([], "audio/mpeg"%string).
Proof. by vm_compute. Qed.

Lemma rest_provider_failure_witness :
  let sw := Rest.responding unauthorized in
  Rest.reaches_provider sw rec1_body rec1 hello
  /\ Rest.ok unauthorized = false
  /\ Rest.sent (Rest.handler sw (post rec1_body))
     = Some (internal_error (Error "ElevenLabs API Error: 401 Unauthorized"))
  /\ length (Rest.calls (Rest.reached (Rest.handler sw (post rec1_body)))) = 2.
Proof.
  intros sw.
  destruct (rest_provider_failure sw rec1_body rec1 hello upload_denied
              (rest_reaches_sample unauthorized)) as (_ & Hstatus & _).
  destruct (Hstatus unauthorized) as [_ Htext]; [reflexivity | reflexivity |].
  rewrite (Htext "Unauthorized"%string eq_refl).
  split_and!; [apply rest_reaches_sample | reflexivity | reflexivity | reflexivity].
Defined.

Lemma rest_storage_failures_witness :
  (Rest.sent (Rest.handler rest_without_storage (post rec1_body))
   = Some (internal_error upload_denied)
   /\ length (Rest.calls (Rest.reached (Rest.handler rest_without_storage (post rec1_body)))) = 3)
  /\ (Rest.sent (Rest.handler rest_without_write_back (post rec1_body))
      = Some (internal_error update_refused)
      /\ Rest.s3_objects (Rest.reached (Rest.handler rest_without_write_back (post rec1_body)))
         !! "audio/rec1-5.mp3"%string
         = Some (["A"; "B"; "C"]%byte, "audio/mpeg"%string)).
Proof.
  assert (Hreach : forall sw,
             Rest.collaborators sw = world_without_storage [] 5
             \/ Rest.collaborators sw = world_without_write_back [] 5 ->
             Rest.reaches_provider sw rec1_body rec1 hello).
  { intros sw Hsw. split; [reflexivity|]. split; [reflexivity|].
    split; [by exists "rec1"%string|].
    exists {[ "Script" := hello ]}. destruct Hsw as [-> | ->]; split_and!; reflexivity. }
  split.
  - destruct (rest_storage_failures rest_without_storage rec1_body rec1 hello
                stream_response upload_denied) as [Hfail _];
      try reflexivity; [apply Hreach; left; reflexivity|].
    rewrite Hfail by reflexivity. split; reflexivity.
  - destruct (rest_storage_failures rest_without_write_back rec1_body rec1 hello
                stream_response update_refused) as [_ Hfail];
      try reflexivity; [apply Hreach; right; reflexivity|].
    rewrite Hfail by reflexivity. split; reflexivity.
Defined.

Lemma rest_calls_in_order_witness :
  Rest.kind <$> Rest.calls (Rest.reached (Rest.handler rest_without_storage (post rec1_body)))
  `prefix_of` [0; 1; 2; 3].
Proof.
  destruct (rest_calls_in_order rest_without_storage (post rec1_body)) as (Hpre & _).
  exact Hpre.
Defined.

Lemma rest_always_answers_witness :
  req_body (Request "PUT" (Some (JString "x"))) = Some (JString "x")
  /\ JString "x" <> JNull
  /\ status <$> Rest.sent (Rest.handler (Rest.responding unauthorized)
                                        (Request "PUT" (Some (JString "x")))) = Some 405%Z
  /\ (exists r, Rest.sent (Rest.handler (Rest.responding unauthorized) (post rec1_body)) = Some r
                /\ status r <> 405%Z).
Proof.
  assert (Hb : JString "x" <> JNull) by discriminate.
  assert (Hb1 : rec1_body <> JNull) by discriminate.
  assert (Hconv : forall rid, get_prop rec1_body "recordId" = Normal (Some rid) ->
                              truthy (Some rid) = true -> exists s, ToString rid = Normal s).
  { intros rid Hrid _. injection Hrid as <-. by exists "rec1"%string. }
  split_and!; [reflexivity | exact Hb | |].
  - destruct (rest_always_answers (Rest.responding unauthorized)
                (Request "PUT" (Some (JString "x"))) (JString "x") eq_refl Hb)
      as (_ & r & Hs & H405 & _); [discriminate|].
    rewrite Hs. simpl. f_equal. apply H405. discriminate.
  - destruct (rest_always_answers (Rest.responding unauthorized) (post rec1_body) rec1_body
                eq_refl Hb1 Hconv) as (_ & r & Hs & H405 & _).
    exists r. split; [exact Hs|]. intros H. apply H405 in H. by apply H.
Defined.

Lemma revisions_agree_off_socket_witness :
  let w := sample_world [EvOpen; EvMessage (chunk_message "QUJD"); EvClose] 5 in
  sent (Revision3.handler w (post rec1_body))
  = sent (handler (with_events w (rekey_event <$> ws_events w)) (post rec1_body))
  /\ status <$> sent (Revision3.handler w (post rec1_body)) = Some 200%Z
  /\ status <$> sent (handler w (post rec1_body)) = Some 500%Z.
Proof.
  intros w.
  destruct (revisions_agree_off_socket w (post rec1_body)) as (Hs & _).
  split_and!; [exact Hs | reflexivity | reflexivity].
Defined.

Lemma revision3_needs_audio_chunk_witness :
  let ms := [audio_message "QUJD"; full_message "RA==" "a"] in
  let w := sample_world (EvOpen :: (EvMessage <$> ms) ++ [EvClose]) 5 in
  status <$> sent (handler w (post rec1_body)) = Some 200%Z
  /\ sent (Revision3.handler w (post rec1_body)) = Some (internal_error EmptyAudioError)
  /\ uploads (calls (Revision3.handler w (post rec1_body))) = [].
Proof.
  intros ms w.
  destruct (revision3_needs_audio_chunk w rec1_body rec1 "rec1" {[ "Script" := hello ]}
              hello ms)
    as (Hs & _ & _ & Hup & _); try reflexivity.
  { repeat constructor; eexists; (split; [reflexivity|reflexivity]). }
  split_and!; [reflexivity | exact Hs | exact Hup].
Defined.

Lemma unconvertible_record_id_escapes_witness :
  truthy (Some unconvertible) = true
  /\ ToString unconvertible = Throw cannot_convert
  /\ handler (sample_world [EvOpen; EvClose] 0) (post unconvertible_body)
     = escape cannot_convert initial
  /\ Rest.handler (Rest.responding stream_response) (post unconvertible_body)
     = Rest.Outcome Rest.nothing_done None (Some cannot_convert).
Proof.
  destruct (unconvertible_record_id_escapes (sample_world [EvOpen; EvClose] 0)
              (Rest.responding stream_response) unconvertible_body unconvertible
              cannot_convert) as ((Hh & _ & Hr) & _); try reflexivity.
  split_and!; [reflexivity | reflexivity | exact Hh | exact Hr].
Defined.
